(** * BitFrost revenue engine: a shallow embedding of [src/app/page.tsx]

    The TypeScript source computes with the JavaScript [number] type, that
    is IEEE 754 binary64 with round-to-nearest-even.  Rocq's primitive
    [float] is the same format with the same rounding, so every numeric
    field below is a [float] and every operator is the primitive one: the
    embedding evaluates bit for bit like the source.

    Objects live in a store: the preset table [SCENARIOS] maps a name to
    the location of a parameter object, and React state holds locations,
    so that aliasing between the table and the component state is part of
    the model. *)

From Stdlib Require Import Floats ZArith Lia List.
From stdpp Require Import gmap strings.
Import ListNotations.

Set Warnings "-inexact-float".

(** ** Data model *)

(** [interface ScenarioParams]: thirteen [number] fields. *)
Record ScenarioParams : Type := mkScenarioParams {
  dailyVolume : float;
  internalMatchRatio : float;
  clearingFee : float;
  nettingFee : float;
  hlFundingRate : float;
  archBorrowRate : float;
  frictionCost : float;
  equity : float;
  leverage : float;
  monthlyLiquidations : float;
  liquidationFee : float;
  dailyHedge : float;
  hedgeEfficiency : float
}.

(** [interface RevenueResult]: twelve [number] fields. *)
Record RevenueResult : Type := mkRevenueResult {
  total : float;
  clearing : float;
  funding : float;
  liquidations : float;
  hedging : float;
  monthlyAvg : float;
  dailyAvg : float;
  fundingSpread : float;
  deployedNotional : float;
  fundingROE : float;
  clearingDaily : float;
  hedgeDaily : float
}.

(** The element type of the array returned by [generateMonthlyForecast]
    (anonymous in the source). *)
Module MonthlyForecastPoint.
Record t : Type := mk {
  month : float;
  clearing : float;
  funding : float;
  liquidations : float;
  hedging : float;
  total : float
}.
End MonthlyForecastPoint.

(** ** Constants *)

Definition DAYS_PER_YEAR : float := 365%float.
Definition MONTHS_PER_YEAR : float := 12%float.
Definition BPS_PER_UNIT : float := 10000%float.

(** ** Scenario defaults: the three object literals of [SCENARIOS] *)

Definition bear_literal : ScenarioParams := {|
  dailyVolume := 500000000%float;
  internalMatchRatio := 0.30%float;
  clearingFee := 1.5%float;
  nettingFee := 0.5%float;
  hlFundingRate := 2%float;
  archBorrowRate := 3%float;
  frictionCost := 1.5%float;
  equity := 50000000%float;
  leverage := 2.0%float;
  monthlyLiquidations := 10000000%float;
  liquidationFee := 0.3%float;
  dailyHedge := 50000000%float;
  hedgeEfficiency := 0.2%float
|}.

Definition base_literal : ScenarioParams := {|
  dailyVolume := 2000000000%float;
  internalMatchRatio := 0.50%float;
  clearingFee := 1.5%float;
  nettingFee := 0.5%float;
  hlFundingRate := 8%float;
  archBorrowRate := 2.5%float;
  frictionCost := 1.2%float;
  equity := 100000000%float;
  leverage := 8.0%float;
  monthlyLiquidations := 50000000%float;
  liquidationFee := 0.4%float;
  dailyHedge := 200000000%float;
  hedgeEfficiency := 0.5%float
|}.

Definition bull_literal : ScenarioParams := {|
  dailyVolume := 5000000000%float;
  internalMatchRatio := 0.65%float;
  clearingFee := 1.5%float;
  nettingFee := 0.5%float;
  hlFundingRate := 25%float;
  archBorrowRate := 2%float;
  frictionCost := 0.8%float;
  equity := 200000000%float;
  leverage := 12.0%float;
  monthlyLiquidations := 150000000%float;
  liquidationFee := 0.5%float;
  dailyHedge := 500000000%float;
  hedgeEfficiency := 1.0%float
|}.

(** ** Revenue calculator *)

Module RevenueCalculator.

(** [calculate(params)], statement by statement. *)
Definition calculate (params : ScenarioParams) : RevenueResult :=
  let V_d := dailyVolume params in
  let alpha := internalMatchRatio params in
  let f_c := (clearingFee params / BPS_PER_UNIT)%float in
  let f_n := (nettingFee params / BPS_PER_UNIT)%float in
  let f_H := (hlFundingRate params / 100)%float in
  let r_l := (archBorrowRate params / 100)%float in
  let kappa := (frictionCost params / BPS_PER_UNIT)%float in
  let E := equity params in
  let L := leverage params in
  let L_m := monthlyLiquidations params in
  let phi := (liquidationFee params / 100)%float in
  let H_d := dailyHedge params in
  let eta := (hedgeEfficiency params / BPS_PER_UNIT)%float in
  let R_clear := (DAYS_PER_YEAR * V_d * alpha * (f_c + f_n))%float in
  let s := (f_H - r_l - kappa)%float in
  let N := (L * E)%float in
  let R_funding := (s * N)%float in
  let R_liq := (MONTHS_PER_YEAR * L_m * phi)%float in
  let R_hedge := (DAYS_PER_YEAR * H_d * eta)%float in
  let R_total := (R_clear + R_funding + R_liq + R_hedge)%float in
  {| total := R_total;
     clearing := R_clear;
     funding := R_funding;
     liquidations := R_liq;
     hedging := R_hedge;
     monthlyAvg := (R_total / MONTHS_PER_YEAR)%float;
     dailyAvg := (R_total / DAYS_PER_YEAR)%float;
     fundingSpread := s;
     deployedNotional := N;
     fundingROE := (s * L * 100)%float;
     clearingDaily := (R_clear / DAYS_PER_YEAR)%float;
     hedgeDaily := (R_hedge / DAYS_PER_YEAR)%float |}.

(** The [for (let month = 1; month <= 12; month++)] loop of
    [generateMonthlyForecast]: [month] is a [number], the guard and the
    increment are the source's, and [data.push] appends at the end.  One
    unit of fuel pays for one evaluation of the guard; [None] means the
    fuel ran out before the guard failed. *)
Fixpoint forecast_loop (fuel : nat) (result : RevenueResult)
    (month : float) (data : list MonthlyForecastPoint.t)
    : option (list MonthlyForecastPoint.t) :=
  match fuel with
  | O => None
  | S fuel' =>
      if (month <=? 12)%float then
        forecast_loop fuel' result (month + 1)%float
          (data ++
           [ {| MonthlyForecastPoint.month := month;
                MonthlyForecastPoint.clearing := (clearing result / DAYS_PER_YEAR)%float;
                MonthlyForecastPoint.funding := (funding result / DAYS_PER_YEAR)%float;
                MonthlyForecastPoint.liquidations := (liquidations result / DAYS_PER_YEAR)%float;
                MonthlyForecastPoint.hedging := (hedging result / DAYS_PER_YEAR)%float;
                MonthlyForecastPoint.total := dailyAvg result |} ])
      else Some data
  end.

(** [generateMonthlyForecast(params)]. *)
Definition generateMonthlyForecast (fuel : nat) (params : ScenarioParams)
    : option (list MonthlyForecastPoint.t) :=
  let result := calculate params in
  forecast_loop fuel result 1%float [].

End RevenueCalculator.
Import RevenueCalculator.

(** ** Objects, the preset table and the component state *)

(** [keyof ScenarioParams]. *)
Inductive Key : Type :=
  | K_dailyVolume | K_internalMatchRatio | K_clearingFee | K_nettingFee
  | K_hlFundingRate | K_archBorrowRate | K_frictionCost | K_equity
  | K_leverage | K_monthlyLiquidations | K_liquidationFee | K_dailyHedge
  | K_hedgeEfficiency.

(** The object expression [{ ...prev, [key]: value }]: every field of
    [prev], with the field named [key] overridden. *)
Definition spread_with (prev : ScenarioParams) (key : Key) (value : float)
    : ScenarioParams :=
  match key with
  | K_dailyVolume =>
      mkScenarioParams value (internalMatchRatio prev) (clearingFee prev)
        (nettingFee prev) (hlFundingRate prev) (archBorrowRate prev)
        (frictionCost prev) (equity prev) (leverage prev)
        (monthlyLiquidations prev) (liquidationFee prev) (dailyHedge prev)
        (hedgeEfficiency prev)
  | K_internalMatchRatio =>
      mkScenarioParams (dailyVolume prev) value (clearingFee prev)
        (nettingFee prev) (hlFundingRate prev) (archBorrowRate prev)
        (frictionCost prev) (equity prev) (leverage prev)
        (monthlyLiquidations prev) (liquidationFee prev) (dailyHedge prev)
        (hedgeEfficiency prev)
  | K_clearingFee =>
      mkScenarioParams (dailyVolume prev) (internalMatchRatio prev) value
        (nettingFee prev) (hlFundingRate prev) (archBorrowRate prev)
        (frictionCost prev) (equity prev) (leverage prev)
        (monthlyLiquidations prev) (liquidationFee prev) (dailyHedge prev)
        (hedgeEfficiency prev)
  | K_nettingFee =>
      mkScenarioParams (dailyVolume prev) (internalMatchRatio prev)
        (clearingFee prev) value (hlFundingRate prev) (archBorrowRate prev)
        (frictionCost prev) (equity prev) (leverage prev)
        (monthlyLiquidations prev) (liquidationFee prev) (dailyHedge prev)
        (hedgeEfficiency prev)
  | K_hlFundingRate =>
      mkScenarioParams (dailyVolume prev) (internalMatchRatio prev)
        (clearingFee prev) (nettingFee prev) value (archBorrowRate prev)
        (frictionCost prev) (equity prev) (leverage prev)
        (monthlyLiquidations prev) (liquidationFee prev) (dailyHedge prev)
        (hedgeEfficiency prev)
  | K_archBorrowRate =>
      mkScenarioParams (dailyVolume prev) (internalMatchRatio prev)
        (clearingFee prev) (nettingFee prev) (hlFundingRate prev) value
        (frictionCost prev) (equity prev) (leverage prev)
        (monthlyLiquidations prev) (liquidationFee prev) (dailyHedge prev)
        (hedgeEfficiency prev)
  | K_frictionCost =>
      mkScenarioParams (dailyVolume prev) (internalMatchRatio prev)
        (clearingFee prev) (nettingFee prev) (hlFundingRate prev)
        (archBorrowRate prev) value (equity prev) (leverage prev)
        (monthlyLiquidations prev) (liquidationFee prev) (dailyHedge prev)
        (hedgeEfficiency prev)
  | K_equity =>
      mkScenarioParams (dailyVolume prev) (internalMatchRatio prev)
        (clearingFee prev) (nettingFee prev) (hlFundingRate prev)
        (archBorrowRate prev) (frictionCost prev) value (leverage prev)
        (monthlyLiquidations prev) (liquidationFee prev) (dailyHedge prev)
        (hedgeEfficiency prev)
  | K_leverage =>
      mkScenarioParams (dailyVolume prev) (internalMatchRatio prev)
        (clearingFee prev) (nettingFee prev) (hlFundingRate prev)
        (archBorrowRate prev) (frictionCost prev) (equity prev) value
        (monthlyLiquidations prev) (liquidationFee prev) (dailyHedge prev)
        (hedgeEfficiency prev)
  | K_monthlyLiquidations =>
      mkScenarioParams (dailyVolume prev) (internalMatchRatio prev)
        (clearingFee prev) (nettingFee prev) (hlFundingRate prev)
        (archBorrowRate prev) (frictionCost prev) (equity prev)
        (leverage prev) value (liquidationFee prev) (dailyHedge prev)
        (hedgeEfficiency prev)
  | K_liquidationFee =>
      mkScenarioParams (dailyVolume prev) (internalMatchRatio prev)
        (clearingFee prev) (nettingFee prev) (hlFundingRate prev)
        (archBorrowRate prev) (frictionCost prev) (equity prev)
        (leverage prev) (monthlyLiquidations prev) value (dailyHedge prev)
        (hedgeEfficiency prev)
  | K_dailyHedge =>
      mkScenarioParams (dailyVolume prev) (internalMatchRatio prev)
        (clearingFee prev) (nettingFee prev) (hlFundingRate prev)
        (archBorrowRate prev) (frictionCost prev) (equity prev)
        (leverage prev) (monthlyLiquidations prev) (liquidationFee prev)
        value (hedgeEfficiency prev)
  | K_hedgeEfficiency =>
      mkScenarioParams (dailyVolume prev) (internalMatchRatio prev)
        (clearingFee prev) (nettingFee prev) (hlFundingRate prev)
        (archBorrowRate prev) (frictionCost prev) (equity prev)
        (leverage prev) (monthlyLiquidations prev) (liquidationFee prev)
        (dailyHedge prev) value
  end.

(** Object identities.  A parameter object is a cell of the store; a
    variable, a table entry or a React state slot holds its location. *)
Abbreviation loc := positive (only parsing).
Abbreviation store := (gmap positive ScenarioParams) (only parsing).

(** Evaluating the [SCENARIOS] literal at module load allocates the three
    inner objects, in source order, and the table that refers to them. *)
Definition bear_loc : loc := 1%positive.
Definition base_loc : loc := 2%positive.
Definition bull_loc : loc := 3%positive.

Definition initial_store : store :=
  <[bull_loc := bull_literal]>
    (<[base_loc := base_literal]> (<[bear_loc := bear_literal]> ∅)).

Definition SCENARIOS : gmap string positive :=
  <["bull" := bull_loc]> (<["base" := base_loc]> (<["bear" := bear_loc]> ∅)).

(** How an expression completes: with a value, or by throwing. *)
Inductive Completion (A : Type) : Type :=
  | Returns (value : A)
  | Throws (error : string).
Arguments Returns {A} value.
Arguments Throws {A} error.

(** What a property read on the table can give: [undefined], a
    reference to a parameter object, or what [Object.prototype] provides
    under that name (a built-in function; for the accessor [__proto__],
    the prototype object itself). *)
Inductive Value : Type :=
  | Undefined
  | Ref (l : positive)
  | Inherited (name : string).

(** [SCENARIOS] is written as an object literal, so its prototype is
    [Object.prototype].  These are the properties the language gives
    that object (ECMAScript, Properties of the Object Prototype Object,
    and its Annex B). *)
Definition Object_prototype : gset string :=
  {[ "constructor"; "hasOwnProperty"; "isPrototypeOf";
     "propertyIsEnumerable"; "toLocaleString"; "toString"; "valueOf";
     "__proto__"; "__defineGetter__"; "__defineSetter__";
     "__lookupGetter__"; "__lookupSetter__" ]}.

(** The property read [SCENARIOS[name]] (ECMAScript OrdinaryGet): an own
    key gives the stored reference; any other name is looked up in
    [Object.prototype], whose own prototype is [null], where the chain
    ends with [undefined].  The read always completes normally: nothing
    in the source throws, and no built-in accessor on the chain does. *)
Definition SCENARIOS_get (name : string) : Completion Value :=
  match SCENARIOS !! name with
  | Some l => Returns (Ref l)
  | None =>
      if bool_decide (name ∈ Object_prototype) then Returns (Inherited name)
      else Returns Undefined
  end.

(** The assignment [obj[key] = value] on the object at [l]: an update in
    place of that cell, seen through every alias of [l]. *)
Definition assign (h : store) (l : loc) (key : Key) (value : float) : store :=
  alter (fun o => spread_with o key value) l h.

(** Allocation of a fresh object. *)
Definition alloc (h : store) (o : ScenarioParams) : loc * store :=
  let l := fresh (dom h) in (l, <[l := o]> h).

(** [BitFrostEngine]: the four [useState] slots and the store they point
    into.  The parameter slots are initialised with the references
    [SCENARIOS.bear], [SCENARIOS.base] and [SCENARIOS.bull] themselves. *)
Inductive Tab : Type := TabBear | TabBase | TabBull | TabComparison.

Record AppState : Type := mkAppState {
  objects : store;
  activeTab : Tab;
  bearParams : loc;
  baseParams : loc;
  bullParams : loc
}.

Definition BitFrostEngine_init : AppState := {|
  objects := initial_store;
  activeTab := TabBase;
  bearParams := SCENARIOS !!! "bear";
  baseParams := SCENARIOS !!! "base";
  bullParams := SCENARIOS !!! "bull"
|}.

(** The state updater [(prev) => ({ ...prev, [key]: value })] applied to
    the object at [l]: it reads [prev] and allocates the new object. *)
Definition functional_update (h : store) (l : loc) (key : Key) (value : float)
    : option (loc * store) :=
  match h !! l with
  | Some prev => Some (alloc h (spread_with prev key value))
  | None => None
  end.

Definition handleBearChange (key : Key) (value : float) (st : AppState) : AppState :=
  match functional_update (objects st) (bearParams st) key value with
  | Some (l, h) =>
      {| objects := h; activeTab := activeTab st; bearParams := l;
         baseParams := baseParams st; bullParams := bullParams st |}
  | None => st
  end.

Definition handleBaseChange (key : Key) (value : float) (st : AppState) : AppState :=
  match functional_update (objects st) (baseParams st) key value with
  | Some (l, h) =>
      {| objects := h; activeTab := activeTab st; bearParams := bearParams st;
         baseParams := l; bullParams := bullParams st |}
  | None => st
  end.

Definition handleBullChange (key : Key) (value : float) (st : AppState) : AppState :=
  match functional_update (objects st) (bullParams st) key value with
  | Some (l, h) =>
      {| objects := h; activeTab := activeTab st; bearParams := bearParams st;
         baseParams := baseParams st; bullParams := l |}
  | None => st
  end.

Definition setActiveTab (t : Tab) (st : AppState) : AppState :=
  {| objects := objects st; activeTab := t; bearParams := bearParams st;
     baseParams := baseParams st; bullParams := bullParams st |}.

(** What the user can do: click a tab, or edit one field of one scenario. *)
Inductive Event : Type :=
  | Click (t : Tab)
  | EditBear (key : Key) (value : float)
  | EditBase (key : Key) (value : float)
  | EditBull (key : Key) (value : float).

Definition dispatch (st : AppState) (ev : Event) : AppState :=
  match ev with
  | Click t => setActiveTab t st
  | EditBear key value => handleBearChange key value st
  | EditBase key value => handleBaseChange key value st
  | EditBull key value => handleBullChange key value st
  end.

Definition run (st : AppState) (evs : list Event) : AppState :=
  fold_left dispatch evs st.

(** Every slot of the component state refers to a live object. *)
Definition slots_live (st : AppState) : Prop :=
  is_Some (objects st !! bearParams st) /\
  is_Some (objects st !! baseParams st) /\
  is_Some (objects st !! bullParams st).

(** ** Binary64 arithmetic: the vocabulary of the rounding lemmas

    The primitive operations are specified on decoded numbers
    ([Prim2SF], with [prec = 53] and [emax = 1024]). *)

(** The sign carried by a decoded number. *)
Definition signed_as (s : bool) (x : spec_float) : Prop :=
  match x with
  | S754_zero s' | S754_infinity s' | S754_finite s' _ _ => s' = s
  | S754_nan => False
  end.

(** The mantissa and the exponent that [binary_round_aux] settles on,
    from an exact location. *)
Definition round_core (M e : Z) : Z * Z :=
  let r1 := shr_fexp prec emax M e loc_Exact in
  let r2 := shr_fexp prec emax
              (round_nearest_even (shr_m (fst r1)) (loc_of_shr_record (fst r1)))
              (snd r1) loc_Exact in
  (shr_m (fst r2), snd r2).

(** ... and the number it packs them into. *)
Definition pack (s : bool) (me : Z * Z) : spec_float :=
  match fst me with
  | Z0 => S754_zero s
  | Zpos m =>
      if (snd me <=? 971)%Z then S754_finite s m (snd me)
      else S754_infinity s
  | Zneg _ => S754_nan
  end.

(** The decodings of [2], [2^1023] and [2^-1021]. *)
Definition two_sf : spec_float := S754_finite false 4503599627370496 (-51).
Definition huge_sf : spec_float := S754_finite false 4503599627370496 971.
Definition tiny_sf : spec_float := S754_finite false 4503599627370496 (-1073).

Definition nonzero_number (x : spec_float) : Prop :=
  match x with
  | S754_finite _ _ _ | S754_infinity _ => True
  | _ => False
  end.

(** [2 * y] does not overflow: [|y| < 2^1023]. *)
Definition doubles_finitely (y : float) : bool := (abs y <? 0x1p1023)%float.

(** The product [x * y] was not rounded in the subnormal range: its
    magnitude is at least [2^-1021], or one factor is a zero. *)
Definition product_scales (x y : float) : bool :=
  (0x1p-1021 <=? abs (x * y))%float || (x =? 0)%float || (y =? 0)%float.

(** ** Formatting functions *)

Section Formatting.

(** [Number.prototype.toFixed] is the host's; the formatting functions are
    read for any implementation of it. *)
Variable toFixed : float -> nat -> string.

(** [formatCurrency(value)].  [value >= c] is the IEEE comparison
    [c <=? value], false when [value] is NaN. *)
Definition formatCurrency (value : float) : string :=
  if (1000000000 <=? value)%float then
    "$" +:+ toFixed (value / 1000000000)%float 2 +:+ "B"
  else if (1000000 <=? value)%float then
    "$" +:+ toFixed (value / 1000000)%float 2 +:+ "M"
  else if (1000 <=? value)%float then
    "$" +:+ toFixed (value / 1000)%float 2 +:+ "K"
  else
    "$" +:+ toFixed value 2.

(** [formatPercentage(value)]. *)
Definition formatPercentage (value : float) : string :=
  toFixed value 2 +:+ "%".

(** The rows of the "Revenue Breakdown" table of [ScenarioTab]: stream,
    annual amount, share of the total.  The share of the TOTAL row is the
    literal [100%]. *)
Definition revenueBreakdown (result : RevenueResult)
    : list (string * string * string) :=
  [ ("Clearing", formatCurrency (clearing result),
       formatPercentage (clearing result / total result * 100)%float);
    ("Funding Arbitrage", formatCurrency (funding result),
       formatPercentage (funding result / total result * 100)%float);
    ("Liquidations", formatCurrency (liquidations result),
       formatPercentage (liquidations result / total result * 100)%float);
    ("Hedging", formatCurrency (hedging result),
       formatPercentage (hedging result / total result * 100)%float);
    ("TOTAL", formatCurrency (total result), "100%") ].

End Formatting.

(** ** The pie chart data of [ScenarioTab] *)

Definition is_positive_zero (x : float) : bool := is_zero x && negb (get_sign x).
Definition is_negative_zero (x : float) : bool := is_zero x && get_sign x.

(** [Math.max], after the coercion of its arguments: NaN wins, [+0] is
    above [-0], and otherwise the greatest number seen from [-Infinity]. *)
Fixpoint Math_max_from (highest : float) (coerced : list float) : float :=
  match coerced with
  | [] => highest
  | number :: rest =>
      if is_nan number then nan
      else
        let highest :=
          if is_positive_zero number && is_negative_zero highest
          then 0%float else highest in
        let highest := if (highest <? number)%float then number else highest in
        Math_max_from highest rest
  end.

Definition Math_max (coerced : list float) : float :=
  Math_max_from neg_infinity coerced.

(** [chartData]: the four slices of the "Revenue Composition" pie. *)
Definition chartData (result : RevenueResult) : list (string * float) :=
  [ ("Clearing", clearing result);
    ("Funding", Math_max [0%float; funding result]);
    ("Liquidations", liquidations result);
    ("Hedging", hedging result) ].

(** ** Reading the component state *)

(** The property read [params[key]]. *)
Definition get_field (key : Key) (params : ScenarioParams) : float :=
  match key with
  | K_dailyVolume => dailyVolume params
  | K_internalMatchRatio => internalMatchRatio params
  | K_clearingFee => clearingFee params
  | K_nettingFee => nettingFee params
  | K_hlFundingRate => hlFundingRate params
  | K_archBorrowRate => archBorrowRate params
  | K_frictionCost => frictionCost params
  | K_equity => equity params
  | K_leverage => leverage params
  | K_monthlyLiquidations => monthlyLiquidations params
  | K_liquidationFee => liquidationFee params
  | K_dailyHedge => dailyHedge params
  | K_hedgeEfficiency => hedgeEfficiency params
  end.

(** The three scenarios that own a state slot. *)
Inductive Scenario : Type := Bear | Base | Bull.

Definition slot (sc : Scenario) (st : AppState) : positive :=
  match sc with
  | Bear => bearParams st
  | Base => baseParams st
  | Bull => bullParams st
  end.

(** The parameter object a slot currently refers to: what [ScenarioTab]
    receives as [params]. *)
Definition currentParams (sc : Scenario) (st : AppState) : option ScenarioParams :=
  objects st !! slot sc st.

(** [bearResult], [baseResult] and [bullResult] of [BitFrostEngine]
    ([useMemo] of [calculate] on the slot's object). *)
Definition scenarioResult (sc : Scenario) (st : AppState) : option RevenueResult :=
  calculate <$> currentParams sc st.

(** The edits of an event sequence that are addressed to one scenario,
    in order. *)
Definition edits_of (sc : Scenario) (evs : list Event) : list (Key * float) :=
  flat_map (fun ev =>
    match ev, sc with
    | EditBear key value, Bear
    | EditBase key value, Base
    | EditBull key value, Bull => [(key, value)]
    | _, _ => []
    end) evs.

Definition apply_edits (params : ScenarioParams) (edits : list (Key * float))
    : ScenarioParams :=
  fold_left (fun p kv => spread_with p (fst kv) (snd kv)) edits params.

Definition preset_literal (sc : Scenario) : ScenarioParams :=
  match sc with
  | Bear => bear_literal
  | Base => base_literal
  | Bull => bull_literal
  end.

(** The event that edits one field of one scenario. *)
Definition edit (sc : Scenario) (key : Key) (value : float) : Event :=
  match sc with
  | Bear => EditBear key value
  | Base => EditBase key value
  | Bull => EditBull key value
  end.

(** ** Which stream an input feeds *)

Inductive Stream : Type := Clearing | Funding | Liquidations | Hedging.

Definition stream_value (s : Stream) (result : RevenueResult) : float :=
  match s with
  | Clearing => clearing result
  | Funding => funding result
  | Liquidations => liquidations result
  | Hedging => hedging result
  end.

Definition feeds (key : Key) : Stream :=
  match key with
  | K_dailyVolume | K_internalMatchRatio | K_clearingFee | K_nettingFee => Clearing
  | K_hlFundingRate | K_archBorrowRate | K_frictionCost | K_equity | K_leverage => Funding
  | K_monthlyLiquidations | K_liquidationFee => Liquidations
  | K_dailyHedge | K_hedgeEfficiency => Hedging
  end.

(** Not below zero: a positive number, a zero of either sign, or NaN. *)
Definition not_negative (x : float) : Prop := (x <? 0)%float = false.

(** At the level of decoded numbers: not below zero. *)
Definition SFnot_negative (X : spec_float) : Prop :=
  SFltb X (S754_zero false) = false.

(** ** Rounding errors: the vocabulary

    Every finite binary64 number is a whole multiple of [2^-1074], the
    smallest subnormal: [scaled x] is that multiple, [x / 2^-1074], an
    exact integer (and [0] for an infinity or NaN, which the lemmas
    exclude by a finiteness hypothesis).  Error bounds are stated on
    these integers. *)
Definition SFscaled (X : spec_float) : Z :=
  match X with
  | S754_finite s m e => cond_Zopp s (Zpos m * 2 ^ (e + 1074))
  | _ => 0%Z
  end.

Definition scaled (x : float) : Z := SFscaled (Prim2SF x).

(** Zero or finite, on decoded numbers. *)
Definition SFis_finite (X : spec_float) : bool :=
  match X with
  | S754_zero _ | S754_finite _ _ _ => true
  | S754_infinity _ | S754_nan => false
  end.

(** The shift record [r] (a mantissa, a round bit and a sticky bit)
    places the fraction [N / D]: the mantissa is its integer part, and
    the two bits say whether the rest is zero, below a half, a half, or
    above a half. *)
Definition locates (r : shr_record) (N D : Z) : Prop :=
  (0 < D /\ 0 <= shr_m r /\
   match shr_r r, shr_s r with
   | false, false => N = shr_m r * D
   | false, true => shr_m r * D < N /\ 2 * N < (2 * shr_m r + 1) * D
   | true, false => 2 * N = (2 * shr_m r + 1) * D
   | true, true => (2 * shr_m r + 1) * D < 2 * N /\ N < (shr_m r + 1) * D
   end)%Z.

(** * Binary64 arithmetic *)

(** Distinct binary64 values are told apart by their decoding
    ([Prim2SF]); on closed terms the decoding evaluates. *)
Ltac float_discriminate :=
  let H := fresh "H" in
  intros H; apply (f_equal Prim2SF) in H; vm_compute in H; discriminate H.

(** ** The sign of a rounded product *)

(** Shifting right and rounding to nearest keep a mantissa
    non-negative, so rounding never changes the sign it was given. *)
Lemma shr_1_nonneg (r : shr_record) : (0 <= shr_m r)%Z -> (0 <= shr_m (shr_1 r))%Z.
Proof.
  destruct r as [m b s]. destruct m as [|[q|q|]|q]; simpl; lia.
Qed.

Lemma iter_pos_shr_1_nonneg (p : positive) :
  forall r : shr_record, (0 <= shr_m r)%Z -> (0 <= shr_m (SpecFloat.iter_pos shr_1 p r))%Z.
Proof.
  induction p as [p IH|p IH|]; intros r Hr; simpl.
  - apply IH, IH, shr_1_nonneg, Hr.
  - apply IH, IH, Hr.
  - apply shr_1_nonneg, Hr.
Qed.

Lemma shr_nonneg (r : shr_record) (e n : Z) :
  (0 <= shr_m r)%Z -> (0 <= shr_m (fst (shr r e n)))%Z.
Proof.
  intros Hr. destruct n as [|p|p]; simpl; try exact Hr.
  now apply iter_pos_shr_1_nonneg.
Qed.

Lemma round_nearest_even_nonneg (m : Z) (l : location) :
  (0 <= m)%Z -> (0 <= round_nearest_even m l)%Z.
Proof.
  intros Hm. destruct l as [|[| |]]; simpl; try lia.
  destruct (Z.even m); lia.
Qed.

Lemma binary_round_aux_signed (s : bool) (m : positive) (e : Z) :
  signed_as s (binary_round_aux prec emax s (Zpos m) e loc_Exact).
Proof.
  unfold binary_round_aux, shr_fexp.
  destruct (shr _ e _) as [mrs' e'] eqn:H1.
  assert (Hm' : (0 <= shr_m mrs')%Z).
  { change mrs' with (fst (mrs', e')). rewrite <- H1. apply shr_nonneg. simpl. lia. }
  destruct (shr _ e' _) as [mrs'' e''] eqn:H2.
  assert (Hm'' : (0 <= shr_m mrs'')%Z).
  { change mrs'' with (fst (mrs'', e'')). rewrite <- H2. apply shr_nonneg.
    simpl. now apply round_nearest_even_nonneg. }
  destruct (shr_m mrs'') as [|q|q]; simpl; try reflexivity; try lia.
  destruct (_ <=? _)%Z; reflexivity.
Qed.

(** A negative number times a positive one is negative, or [-0] when the
    product underflows; it is never positive and never NaN. *)
Lemma mul_neg_pos (s n : float) :
  (s <? 0)%float = true -> (0 <? n)%float = true ->
  ((s * n <? 0)%float = true \/ (s * n)%float = neg_zero).
Proof.
  rewrite !ltb_spec, mul_spec.
  change (Prim2SF 0) with (S754_zero false).
  intros Hs Hn.
  destruct (Prim2SF s) as [ss|ss| |ss ms es] eqn:Es; try discriminate Hs;
  destruct (Prim2SF n) as [sn|sn| |sn mn en] eqn:En; try discriminate Hn;
  destruct ss; try discriminate Hs; destruct sn; try discriminate Hn.
  - left. reflexivity.
  - left. reflexivity.
  - left. reflexivity.
  - unfold SF64mul, SFmul. simpl xorb.
    pose proof (binary_round_aux_signed true (ms * mn) (es + en)) as Hsign.
    destruct (binary_round_aux _ _ _ _ _ _) as [sr|sr| |sr mr er] eqn:Er;
      simpl in Hsign; try contradiction; subst sr.
    + right. apply Prim2SF_inj. rewrite mul_spec, Es, En.
      unfold SF64mul, SFmul. simpl xorb. rewrite Er. reflexivity.
    + left. reflexivity.
    + left. reflexivity.
Qed.

(** ** Scaling a product by two *)

Section ScalingByTwo.
Local Open Scope Z_scope.

(** *** Binary digits *)

Lemma pow2_step (a : Z) : 1 <= a -> 2 ^ a = 2 * 2 ^ (a - 1).
Proof.
  intros Ha. replace a with (Z.succ (a - 1)) at 1 by lia.
  apply Z.pow_succ_r. lia.
Qed.

Lemma digits2_pos_bounds (p : positive) :
  2 ^ (Zpos (digits2_pos p) - 1) <= Zpos p < 2 ^ Zpos (digits2_pos p).
Proof.
  induction p as [p IH|p IH|]; simpl digits2_pos.
  - rewrite Pos2Z.inj_succ. change (Zpos p~1) with (2 * Zpos p + 1).
    replace (Z.succ (Zpos (digits2_pos p)) - 1) with (Zpos (digits2_pos p)) by lia.
    rewrite Z.pow_succ_r by lia.
    pose proof (pow2_step (Zpos (digits2_pos p)) ltac:(lia)) as Hstep.
    revert IH Hstep.
    generalize (2 ^ (Zpos (digits2_pos p) - 1)) (2 ^ Zpos (digits2_pos p)).
    intros lo hi IH Hstep. lia.
  - rewrite Pos2Z.inj_succ. change (Zpos p~0) with (2 * Zpos p).
    replace (Z.succ (Zpos (digits2_pos p)) - 1) with (Zpos (digits2_pos p)) by lia.
    rewrite Z.pow_succ_r by lia.
    pose proof (pow2_step (Zpos (digits2_pos p)) ltac:(lia)) as Hstep.
    revert IH Hstep.
    generalize (2 ^ (Zpos (digits2_pos p) - 1)) (2 ^ Zpos (digits2_pos p)).
    intros lo hi IH Hstep. lia.
  - simpl. lia.
Qed.

Lemma Zdigits2_nonneg (m : Z) : 0 <= Zdigits2 m.
Proof. destruct m; simpl; lia. Qed.

(** A number below [2 ^ k] has at most [k] binary digits. *)
Lemma Zdigits2_le (m k : Z) : 0 <= k -> 0 <= m < 2 ^ k -> Zdigits2 m <= k.
Proof.
  intros Hk [Hm0 Hm]. destruct m as [|p|p]; simpl; try lia.
  destruct (Z_le_gt_dec (Zpos (digits2_pos p)) k) as [Hle|Hgt]; [exact Hle|].
  pose proof (digits2_pos_bounds p) as [Hlow _].
  assert (2 ^ k <= 2 ^ (Zpos (digits2_pos p) - 1)) by (apply Z.pow_le_mono_r; lia).
  lia.
Qed.

(** A number at least [2 ^ k] has more than [k] binary digits. *)
Lemma Zdigits2_gt (p : positive) (k : Z) :
  0 <= k -> 2 ^ k <= Zpos p -> k < Zpos (digits2_pos p).
Proof.
  intros Hk Hp.
  destruct (Z_lt_ge_dec k (Zpos (digits2_pos p))) as [Hlt|Hge]; [exact Hlt|].
  pose proof (digits2_pos_bounds p) as [_ Hup].
  assert (2 ^ Zpos (digits2_pos p) <= 2 ^ k) by (apply Z.pow_le_mono_r; lia).
  lia.
Qed.

Lemma digits2_pos_mul_ge_l (a b : positive) :
  Zpos (digits2_pos a) <= Zpos (digits2_pos (a * b)).
Proof.
  pose proof (digits2_pos_bounds a) as [Hlow _].
  assert (Hk : Zpos (digits2_pos a) - 1 < Zpos (digits2_pos (a * b))).
  { apply Zdigits2_gt; [lia|]. rewrite Pos2Z.inj_mul. nia. }
  lia.
Qed.

Lemma digits2_pos_mul_ge_r (a b : positive) :
  Zpos (digits2_pos b) <= Zpos (digits2_pos (a * b)).
Proof. rewrite Pos.mul_comm. apply digits2_pos_mul_ge_l. Qed.

Lemma digits2_pos_mul_le (a b : positive) :
  Zpos (digits2_pos (a * b)) <= Zpos (digits2_pos a) + Zpos (digits2_pos b).
Proof.
  pose proof (digits2_pos_bounds a) as [_ Ha].
  pose proof (digits2_pos_bounds b) as [_ Hb].
  change (Zpos (digits2_pos (a * b))) with (Zdigits2 (Zpos (a * b))).
  apply Zdigits2_le; [lia|].
  rewrite Z.pow_add_r by lia. rewrite Pos2Z.inj_mul. nia.
Qed.

(** *** Shifts are divisions by a power of two *)

Lemma shr_1_m (r : shr_record) : 0 <= shr_m r -> shr_m (shr_1 r) = shr_m r / 2.
Proof.
  destruct r as [m b s]. destruct m as [|[q|q|]|q]; simpl shr_m; intros Hm.
  - reflexivity.
  - change (Zpos q~1) with (2 * Zpos q + 1).
    apply (Z.div_unique _ _ _ 1); lia.
  - change (Zpos q~0) with (2 * Zpos q).
    apply (Z.div_unique _ _ _ 0); lia.
  - reflexivity.
  - lia.
Qed.

Lemma iter_pos_shr_1_m (p : positive) :
  forall r : shr_record, 0 <= shr_m r ->
    shr_m (SpecFloat.iter_pos shr_1 p r) = shr_m r / 2 ^ Zpos p.
Proof.
  induction p as [p IH|p IH|]; intros r Hr; simpl SpecFloat.iter_pos.
  - rewrite IH by (apply iter_pos_shr_1_nonneg, shr_1_nonneg, Hr).
    rewrite IH by (apply shr_1_nonneg, Hr).
    rewrite shr_1_m by exact Hr.
    rewrite !Z.div_div by lia.
    f_equal. change (Zpos p~1) with (2 * Zpos p + 1).
    replace (2 * Zpos p + 1) with (1 + Zpos p + Zpos p) by lia.
    rewrite !Z.pow_add_r by lia. lia.
  - rewrite IH by (apply iter_pos_shr_1_nonneg, Hr).
    rewrite IH by exact Hr.
    rewrite Z.div_div by lia.
    f_equal. change (Zpos p~0) with (2 * Zpos p).
    replace (2 * Zpos p) with (Zpos p + Zpos p) by lia.
    rewrite Z.pow_add_r by lia. lia.
  - rewrite shr_1_m by exact Hr. reflexivity.
Qed.

(** *** Rounding, as a mantissa and an exponent *)

Lemma binary_round_aux_core (s : bool) (M e : Z) :
  binary_round_aux prec emax s M e loc_Exact = pack s (round_core M e).
Proof.
  unfold binary_round_aux, round_core, pack.
  destruct (shr_fexp prec emax M e loc_Exact) as [r1 e1]. simpl fst; simpl snd.
  destruct (shr_fexp prec emax _ e1 loc_Exact) as [r2 e2]. reflexivity.
Qed.

Lemma fexp64 (x : Z) : fexp prec emax x = Z.max (x - 53) (-1074).
Proof. reflexivity. Qed.

Lemma shr_snd (r : shr_record) (e n : Z) : snd (shr r e n) = e + Z.max n 0.
Proof. destruct n; simpl; lia. Qed.

(** Shifting by the same amount, or not shifting at all, from an exponent
    one higher. *)
Lemma shr_succ_exp (r : shr_record) (e n n' : Z) :
  n = n' \/ (n <= 0 /\ n' <= 0) ->
  shr r (e + 1) n' = (fst (shr r e n), snd (shr r e n) + 1).
Proof.
  intros Hn. destruct n as [|p|p], n' as [|p'|p']; simpl;
    try (f_equal; lia); try (exfalso; lia).
  assert (p = p') by (destruct Hn as [Hn|Hn]; [congruence | lia]).
  subst p'. f_equal. lia.
Qed.

(** In the normal range the rounding of [M * 2^(e+1)] is the rounding of
    [M * 2^e] with the exponent raised by one. *)
Lemma round_core_succ_exp (M e : Z) :
  -1074 <= Zdigits2 M + e - 53 ->
  round_core M (e + 1) = (fst (round_core M e), snd (round_core M e) + 1).
Proof.
  intros Hnormal. unfold round_core, shr_fexp. rewrite !fexp64.
  set (r0 := shr_record_of_loc M loc_Exact).
  rewrite (shr_succ_exp r0 e (Z.max (Zdigits2 M + e - 53) (-1074) - e)) by lia.
  pose proof (shr_snd r0 e (Z.max (Zdigits2 M + e - 53) (-1074) - e)) as He1.
  destruct (shr r0 e (Z.max (Zdigits2 M + e - 53) (-1074) - e)) as [r1 e1].
  simpl fst in *; simpl snd in *.
  set (m1 := round_nearest_even (shr_m r1) (loc_of_shr_record r1)).
  pose proof (Zdigits2_nonneg m1) as Hd1.
  set (r1' := shr_record_of_loc m1 loc_Exact).
  rewrite (shr_succ_exp r1' e1 (Z.max (Zdigits2 m1 + e1 - 53) (-1074) - e1)) by lia.
  reflexivity.
Qed.

Lemma iter_pos_comm {A : Type} (f : A -> A) (p : positive) :
  forall x : A, SpecFloat.iter_pos f p (f x) = f (SpecFloat.iter_pos f p x).
Proof.
  induction p as [p IH|p IH|]; intros x; simpl.
  - now rewrite !IH.
  - now rewrite !IH.
  - reflexivity.
Qed.

Lemma iter_pos_succ {A : Type} (f : A -> A) (p : positive) :
  forall x : A, SpecFloat.iter_pos f (Pos.succ p) x = SpecFloat.iter_pos f p (f x).
Proof.
  induction p as [p IH|p IH|]; intros x; simpl.
  - rewrite !IH. now rewrite <- !iter_pos_comm.
  - reflexivity.
  - reflexivity.
Qed.

(** Doubling the mantissa is raising the exponent, as long as the first
    shift does not go left. *)
Lemma round_core_double (m : positive) (e : Z) :
  0 <= Z.max (Zpos (digits2_pos m) + (e + 1) - 53) (-1074) - (e + 1) ->
  round_core (Zpos m~0) e = round_core (Zpos m) (e + 1).
Proof.
  intros Hshift. unfold round_core.
  assert (H1 : shr_fexp prec emax (Zpos m~0) e loc_Exact
               = shr_fexp prec emax (Zpos m) (e + 1) loc_Exact).
  { unfold shr_fexp. rewrite !fexp64. simpl Zdigits2. simpl shr_record_of_loc.
    rewrite Pos2Z.inj_succ.
    set (n := Z.max (Zpos (digits2_pos m) + (e + 1) - 53) (-1074) - (e + 1)) in *.
    replace (Z.max (Z.succ (Zpos (digits2_pos m)) + e - 53) (-1074) - e)
      with (Z.succ n) by lia.
    destruct n as [|p|p]; [| |lia].
    - simpl. f_equal; lia.
    - rewrite <- Pos2Z.inj_succ. unfold shr.
      rewrite iter_pos_succ. simpl shr_1. f_equal; lia. }
  rewrite H1. reflexivity.
Qed.

Lemma round_nearest_even_le (m : Z) (l : location) : round_nearest_even m l <= m + 1.
Proof.
  destruct l as [|[| |]]; simpl; try lia. destruct (Z.even m); lia.
Qed.

Lemma shr_fexp_snd (M e : Z) (l : location) :
  snd (shr_fexp prec emax M e l)
  = e + Z.max (Z.max (Zdigits2 M + e - 53) (-1074) - e) 0.
Proof. unfold shr_fexp. now rewrite shr_snd, fexp64. Qed.

Lemma shr_fexp_fst_m (M e : Z) (n : positive) :
  0 <= M ->
  Z.max (Zdigits2 M + e - 53) (-1074) - e = Zpos n ->
  shr_m (fst (shr_fexp prec emax M e loc_Exact)) = M / 2 ^ Zpos n.
Proof.
  intros HM Hn. unfold shr_fexp. rewrite fexp64, Hn. simpl.
  now rewrite iter_pos_shr_1_m.
Qed.

(** Below the normal range every product is rounded at the exponent
    [-1074]. *)
Lemma round_core_underflow (m : positive) (e : Z) :
  Zpos (digits2_pos m) + e - 53 < -1074 -> e < -1074 ->
  snd (round_core (Zpos m) e) = -1074.
Proof.
  intros Hsmall He. unfold round_core. cbv zeta. simpl snd.
  rewrite !shr_fexp_snd. simpl Zdigits2.
  destruct (-1074 - e) as [|n|n] eqn:Hn; try lia.
  assert (Hshift : Z.max (Zdigits2 (Zpos m) + e - 53) (-1074) - e = Zpos n)
    by (simpl Zdigits2; lia).
  pose proof (shr_fexp_fst_m (Zpos m) e n ltac:(lia) Hshift) as Hm'.
  set (r1 := fst (shr_fexp prec emax (Zpos m) e loc_Exact)) in *.
  assert (Hm1 : 0 <= shr_m r1 < 2 ^ 52).
  { rewrite Hm'.
    pose proof (digits2_pos_bounds m) as [_ Hup].
    assert (Hpow : 2 ^ Zpos (digits2_pos m) <= 2 ^ (Zpos n + 52))
      by (apply Z.pow_le_mono_r; lia).
    rewrite Z.pow_add_r in Hpow by lia.
    split.
    - apply Z.div_pos; lia.
    - apply Z.div_lt_upper_bound; lia. }
  set (m1 := round_nearest_even (shr_m r1) (loc_of_shr_record r1)).
  assert (Hd1 : Zdigits2 m1 <= 53).
  { apply Zdigits2_le; [lia|]. split.
    - apply round_nearest_even_nonneg; lia.
    - pose proof (round_nearest_even_le (shr_m r1) (loc_of_shr_record r1)) as Hle.
      fold m1 in Hle. change (2 ^ 53) with (2 * 2 ^ 52). lia. }
  pose proof (Zdigits2_nonneg m1). lia.
Qed.

(** *** Multiplying by two *)

Lemma Prim2SF_two : Prim2SF 2%float = two_sf.
Proof. reflexivity. Qed.

Lemma digits2_pos_shift52 (m : positive) :
  Zpos (digits2_pos (4503599627370496 * m)) = Zpos (digits2_pos m) + 52.
Proof.
  simpl Pos.mul. simpl digits2_pos. rewrite !Pos2Z.inj_succ, Pos.mul_1_l. lia.
Qed.

Lemma round_core_two_normal (m : positive) (e : Z) :
  Zpos (digits2_pos m) = 53 -> -1074 <= e ->
  round_core (Zpos (4503599627370496 * m)) (-51 + e) = (Zpos m, e + 1).
Proof.
  intros Hd He.
  assert (H1 : shr_fexp prec emax (Zpos (4503599627370496 * m)) (-51 + e) loc_Exact
               = (Build_shr_record (Zpos m) false false, e + 1)).
  { unfold shr_fexp. rewrite fexp64. unfold Zdigits2. rewrite digits2_pos_shift52, Hd.
    replace (Z.max (53 + 52 + (-51 + e) - 53) (-1074) - (-51 + e)) with 52 by lia.
    unfold shr. apply pair_equal_spec. split; [reflexivity | lia]. }
  unfold round_core. rewrite H1. cbv zeta. simpl fst; simpl snd.
  simpl round_nearest_even.
  unfold shr_fexp. rewrite fexp64. unfold Zdigits2. rewrite Hd.
  replace (Z.max (53 + (e + 1) - 53) (-1074) - (e + 1)) with 0 by lia.
  reflexivity.
Qed.

Lemma round_core_two_subnormal (m : positive) :
  Zpos (digits2_pos m) < 53 ->
  round_core (Zpos (4503599627370496 * m)) (-51 + -1074) = (Zpos m~0, -1074).
Proof.
  intros Hd.
  assert (H1 : shr_fexp prec emax (Zpos (4503599627370496 * m)) (-51 + -1074) loc_Exact
               = (Build_shr_record (Zpos m~0) false false, -1074)).
  { unfold shr_fexp. rewrite fexp64. unfold Zdigits2. rewrite digits2_pos_shift52.
    replace (Z.max (Zpos (digits2_pos m) + 52 + (-51 + -1074) - 53) (-1074) - (-51 + -1074))
      with 51 by lia.
    unfold shr. apply pair_equal_spec. split; reflexivity. }
  unfold round_core. rewrite H1. cbv zeta. simpl fst; simpl snd.
  simpl round_nearest_even.
  unfold shr_fexp. rewrite fexp64. simpl Zdigits2. rewrite Pos2Z.inj_succ.
  replace (Z.max (Z.succ (Zpos (digits2_pos m)) + -1074 - 53) (-1074) - -1074) with 0 by lia.
  reflexivity.
Qed.

Lemma SFmul_finite (sx sy : bool) (mx my : positive) (ex ey : Z) :
  SF64mul (S754_finite sx mx ex) (S754_finite sy my ey)
  = pack (xorb sx sy) (round_core (Zpos (mx * my)) (ex + ey)).
Proof. unfold SF64mul, SFmul. apply binary_round_aux_core. Qed.

(** What validity says of a finite number: its exponent is the canonical
    one, so it has 53 digits or sits at the bottom exponent. *)
Lemma bounded_inv (m : positive) (e : Z) :
  bounded prec emax m e = true ->
  Z.max (Zpos (digits2_pos m) + e - 53) (-1074) = e /\ e <= 971.
Proof.
  unfold bounded, canonical_mantissa. rewrite fexp64.
  intros Hb. apply andb_true_iff in Hb as [Hc He].
  apply Z.eqb_eq in Hc. apply Z.leb_le in He.
  split; [exact Hc | exact He].
Qed.

Lemma SFmul_two_normal (s : bool) (m : positive) (e : Z) :
  bounded prec emax m e = true -> Zpos (digits2_pos m) = 53 ->
  SF64mul two_sf (S754_finite s m e) = pack s (Zpos m, e + 1).
Proof.
  intros Hb Hd. apply bounded_inv in Hb as [Hc _].
  unfold two_sf. rewrite SFmul_finite. simpl xorb.
  rewrite round_core_two_normal by lia. reflexivity.
Qed.

Lemma SFmul_two_subnormal (s : bool) (m : positive) (e : Z) :
  bounded prec emax m e = true -> Zpos (digits2_pos m) < 53 ->
  SF64mul two_sf (S754_finite s m e) = S754_finite s m~0 (-1074).
Proof.
  intros Hb Hd. apply bounded_inv in Hb as [Hc _].
  assert (e = -1074) by lia. subst e.
  unfold two_sf. rewrite SFmul_finite. simpl xorb.
  rewrite round_core_two_subnormal by lia. reflexivity.
Qed.

(** Below [2^1023]: the exponent is at most 970. *)
Lemma below_huge_inv (s : bool) (m : positive) (e : Z) :
  bounded prec emax m e = true ->
  SFltb (SFabs (S754_finite s m e)) huge_sf = true -> e <= 970.
Proof.
  intros Hb Hlt. apply bounded_inv in Hb as [Hc He].
  unfold SFltb, huge_sf in Hlt. cbv [SFcompare SFabs] in Hlt.
  destruct (Z.compare_spec e 971) as [Heq|Hlt'|Hgt]; [|lia|lia].
  subst e. exfalso.
  assert (Hd : Zpos (digits2_pos m) = 53) by lia.
  pose proof (digits2_pos_bounds m) as [Hlow _]. rewrite Hd in Hlow.
  destruct (Pos.compare_cont Eq m 4503599627370496) eqn:Hcmp; try discriminate Hlt.
  assert (Hm : Zpos m < 4503599627370496) by exact Hcmp.
  assert (Hp : 2 ^ (53 - 1) = 4503599627370496) by reflexivity.
  rewrite Hp in Hlow. lia.
Qed.

(** At least [2^-1021]: not zero, not NaN, and the exponent is above the
    bottom one. *)
Lemma above_tiny_inv (r : spec_float) :
  SFleb tiny_sf (SFabs r) = true ->
  nonzero_number r /\
  forall s m e, r = S754_finite s m e -> -1073 <= e.
Proof.
  unfold SFleb, tiny_sf. destruct r as [s|s| |s m e];
    cbv [SFcompare SFabs nonzero_number]; try discriminate.
  - intros _. split; [exact I | discriminate].
  - intros Hle. split; [exact I|]. intros s' m' e' Heq.
    injection Heq as _ _ <-.
    destruct (Z.compare_spec (-1073) e) as [Heq'|Hlt|Hgt]; [lia|lia|discriminate Hle].
Qed.

Lemma SFmul_nonzero_inv (X Y : spec_float) :
  nonzero_number (SF64mul X Y) -> nonzero_number X /\ nonzero_number Y.
Proof.
  destruct X, Y; try (intros _; split; exact I); simpl; intros H; contradiction.
Qed.

(** A product that has not underflowed doubles exactly, whether the two
    is applied to the right factor before or to the product after. *)
Lemma SFmul_two_comm (X Y : spec_float) :
  valid_binary X = true -> valid_binary Y = true ->
  valid_binary (SF64mul X Y) = true ->
  SFltb (SFabs Y) huge_sf = true ->
  SFleb tiny_sf (SFabs (SF64mul X Y)) = true ->
  SF64mul X (SF64mul two_sf Y) = SF64mul two_sf (SF64mul X Y).
Proof.
  intros HX HY HR Hy Hxy.
  pose proof (above_tiny_inv _ Hxy) as [Hnz Hexp].
  pose proof (SFmul_nonzero_inv X Y Hnz) as [HnzX HnzY].
  destruct X as [sx|sx| |sx mx ex]; simpl in HnzX; try contradiction;
  destruct Y as [sy|sy| |sy my ey]; simpl in HnzY; try contradiction;
  try discriminate Hy.
  - (* infinity times a finite number *)
    simpl in HY.
    destruct (Z_lt_ge_dec (Zpos (digits2_pos my)) 53) as [Hsub|Hnorm].
    + rewrite (SFmul_two_subnormal sy my ey HY Hsub). simpl.
      now destruct sx, sy.
    + pose proof (bounded_inv _ _ HY) as [HcY _].
      pose proof (below_huge_inv _ _ _ HY Hy) as Hey.
      rewrite (SFmul_two_normal sy my ey HY) by lia.
      unfold pack. simpl fst; simpl snd.
      replace (ey + 1 <=? 971) with true by (symmetry; apply Z.leb_le; lia).
      simpl. now destruct sx, sy.
  - (* two finite numbers *)
    simpl in HX, HY.
    pose proof (bounded_inv _ _ HX) as [HcX HeX].
    pose proof (bounded_inv _ _ HY) as [HcY HeY].
    pose proof (below_huge_inv _ _ _ HY Hy) as Hey.
    pose proof (digits2_pos_mul_ge_l mx my) as Hdl.
    pose proof (digits2_pos_mul_ge_r mx my) as Hdr.
    pose proof (digits2_pos_mul_le mx my) as Hdu.
    rewrite SFmul_finite in HR, Hxy, Hnz, Hexp |- *.
    assert (Hnormal : -1074 <= Zdigits2 (Zpos (mx * my)) + (ex + ey) - 53).
    { simpl Zdigits2.
      destruct (Z_le_gt_dec (-1074) (Zpos (digits2_pos (mx * my)) + (ex + ey) - 53))
        as [Hok|Hsmall]; [exact Hok | exfalso].
      assert (He : ex + ey < -1074) by lia.
      pose proof (round_core_underflow (mx * my) (ex + ey) ltac:(lia) He) as Hsnd.
      destruct (round_core (Zpos (mx * my)) (ex + ey)) as [mR eR].
      simpl in Hsnd. subst eR.
      destruct mR as [|m|m]; unfold pack in Hnz, Hexp; simpl in Hnz, Hexp;
        try contradiction.
      specialize (Hexp _ _ _ eq_refl). lia. }
    pose proof (round_core_succ_exp _ _ Hnormal) as Hsucc.
    simpl Zdigits2 in Hnormal.
    assert (Hlhs : SF64mul (S754_finite sx mx ex) (SF64mul two_sf (S754_finite sy my ey))
                   = pack (xorb sx sy)
                       (fst (round_core (Zpos (mx * my)) (ex + ey)),
                        snd (round_core (Zpos (mx * my)) (ex + ey)) + 1)).
    { destruct (Z_lt_ge_dec (Zpos (digits2_pos my)) 53) as [Hsub|Hnorm].
      - rewrite (SFmul_two_subnormal sy my ey HY Hsub), SFmul_finite.
        assert (ey = -1074) by lia. subst ey.
        rewrite Pos.mul_xO_r, round_core_double by lia.
        rewrite Hsucc. reflexivity.
      - rewrite (SFmul_two_normal sy my ey HY) by lia.
        unfold pack at 1. simpl fst; simpl snd.
        replace (ey + 1 <=? 971) with true by (symmetry; apply Z.leb_le; lia).
        rewrite SFmul_finite.
        replace (ex + (ey + 1)) with (ex + ey + 1) by lia.
        rewrite Hsucc. reflexivity. }
    rewrite Hlhs. clear Hlhs Hsucc.
    destruct (round_core (Zpos (mx * my)) (ex + ey)) as [mR eR].
    simpl fst; simpl snd.
    destruct mR as [|m|m]; unfold pack in HR, Hnz, Hexp |- *;
      simpl fst in *; simpl snd in *; try contradiction.
    destruct (eR <=? 971) eqn:HeR.
    + simpl in HR. specialize (Hexp _ _ _ eq_refl).
      pose proof (bounded_inv _ _ HR) as [HcR _].
      rewrite (SFmul_two_normal (xorb sx sy) m eR HR) by lia.
      reflexivity.
    + apply Z.leb_gt in HeR.
      replace (eR + 1 <=? 971) with false by (symmetry; apply Z.leb_gt; lia).
      simpl. now destruct (xorb sx sy).
Qed.



Lemma SFeqb_zero_inv (X : spec_float) :
  SFeqb X (S754_zero false) = true -> exists s, X = S754_zero s.
Proof.
  unfold SFeqb. destruct X as [s|s| |s m e]; cbv [SFcompare]; try discriminate.
  - intros _. now exists s.
  - destruct s; discriminate.
  - destruct s; discriminate.
Qed.

Lemma SFmul_two_finite (s : bool) (m : positive) (e : Z) :
  bounded prec emax m e = true ->
  SFltb (SFabs (S754_finite s m e)) huge_sf = true ->
  exists m' e', SF64mul two_sf (S754_finite s m e) = S754_finite s m' e'.
Proof.
  intros Hb Hy.
  destruct (Z_lt_ge_dec (Zpos (digits2_pos m)) 53) as [Hsub|Hnorm].
  - rewrite (SFmul_two_subnormal s m e Hb Hsub). eauto.
  - pose proof (bounded_inv _ _ Hb) as [Hc _].
    pose proof (below_huge_inv _ _ _ Hb Hy) as Hey.
    rewrite (SFmul_two_normal s m e Hb) by lia.
    unfold pack. simpl fst; simpl snd.
    replace (e + 1 <=? 971) with true by (symmetry; apply Z.leb_le; lia).
    eauto.
Qed.

Lemma SFmul_two_comm_zero_l (s : bool) (Y : spec_float) :
  valid_binary Y = true -> SFltb (SFabs Y) huge_sf = true ->
  SF64mul (S754_zero s) (SF64mul two_sf Y)
  = SF64mul two_sf (SF64mul (S754_zero s) Y).
Proof.
  intros HY Hy. destruct Y as [sy|sy| |sy my ey]; try discriminate Hy.
  - now destruct s, sy.
  - simpl in HY. destruct (SFmul_two_finite sy my ey HY Hy) as (m' & e' & ->).
    now destruct s, sy.
Qed.

Lemma SFmul_two_comm_zero_r (X : spec_float) (s : bool) :
  SF64mul X (SF64mul two_sf (S754_zero s))
  = SF64mul two_sf (SF64mul X (S754_zero s)).
Proof. destruct X as [sx|sx| |sx mx ex]; try reflexivity; now destruct sx, s. Qed.

Lemma Prim2SF_huge : Prim2SF 0x1p1023%float = huge_sf.
Proof. reflexivity. Qed.

Lemma Prim2SF_tiny : Prim2SF 0x1p-1021%float = tiny_sf.
Proof. reflexivity. Qed.

Lemma Prim2SF_zero : Prim2SF 0%float = S754_zero false.
Proof. reflexivity. Qed.

(** On primitive floats: when [2 * y] does not overflow and [x * y] was
    not rounded in the subnormal range, [x * (2 * y)] and [2 * (x * y)]
    are the same number. *)
Lemma mul_two_comm (x y : float) :
  doubles_finitely y = true -> product_scales x y = true ->
  (x * (2 * y))%float = (2 * (x * y))%float.
Proof.
  unfold doubles_finitely, product_scales. intros Hy Hxy. apply Prim2SF_inj.
  rewrite ltb_spec, abs_spec, Prim2SF_huge in Hy.
  rewrite leb_spec, abs_spec, mul_spec, Prim2SF_tiny in Hxy.
  rewrite !FloatAxioms.eqb_spec, Prim2SF_zero in Hxy.
  pose proof (Prim2SF_valid x) as HX.
  pose proof (Prim2SF_valid y) as HY.
  pose proof (Prim2SF_valid (x * y)%float) as HR. rewrite mul_spec in HR.
  rewrite (mul_spec x), (mul_spec 2%float y), (mul_spec 2%float (x * y)%float), (mul_spec x y).
  rewrite Prim2SF_two.
  apply orb_true_iff in Hxy as [Hxy|Hy0]; [apply orb_true_iff in Hxy as [Hxy|Hx0]|].
  - exact (SFmul_two_comm (Prim2SF x) (Prim2SF y) HX HY HR Hy Hxy).
  - apply SFeqb_zero_inv in Hx0 as [s ->].
    exact (SFmul_two_comm_zero_l s (Prim2SF y) HY Hy).
  - apply SFeqb_zero_inv in Hy0 as [s ->].
    exact (SFmul_two_comm_zero_r (Prim2SF x) s).
Qed.

End ScalingByTwo.

(** ** The error of a rounded sum and of a rounded quotient *)

Section RoundingError.
Local Open Scope Z_scope.

(** *** Shifting and rounding a located fraction *)

(** One shift to the right halves the unit: the record still places
    the same numerator, over twice the denominator. *)
Lemma shr_1_locates (r : shr_record) (N D : Z) :
  locates r N D -> locates (shr_1 r) N (2 * D).
Proof.
  unfold locates. destruct r as [m b s].
  destruct m as [|[q|q|]|q]; simpl shr_m; simpl shr_r; simpl shr_s;
    try (change (Zpos q~1) with (2 * Zpos q + 1));
    try (change (Zpos q~0) with (2 * Zpos q));
    destruct b, s; simpl; lia.
Qed.

Lemma iter_pos_shr_1_locates (p : positive) :
  forall (r : shr_record) (N D : Z),
    locates r N D -> locates (SpecFloat.iter_pos shr_1 p r) N (2 ^ Zpos p * D).
Proof.
  induction p as [p IH|p IH|]; intros r N D Hr; simpl SpecFloat.iter_pos.
  - apply shr_1_locates, IH, IH in Hr.
    replace (2 ^ Zpos p~1 * D) with (2 ^ Zpos p * (2 ^ Zpos p * (2 * D))); [exact Hr|].
    change (Zpos p~1) with (2 * Zpos p + 1).
    replace (2 * Zpos p + 1) with (Zpos p + Zpos p + 1) by lia.
    rewrite !Z.pow_add_r by lia. lia.
  - apply IH, IH in Hr.
    replace (2 ^ Zpos p~0 * D) with (2 ^ Zpos p * (2 ^ Zpos p * D)); [exact Hr|].
    change (Zpos p~0) with (2 * Zpos p).
    replace (2 * Zpos p) with (Zpos p + Zpos p) by lia.
    rewrite !Z.pow_add_r by lia. lia.
  - apply shr_1_locates in Hr.
    replace (2 ^ 1 * D) with (2 * D) by lia. exact Hr.
Qed.

(** Rounding to nearest picks the mantissa or its successor, within
    half a unit of the fraction. *)
Lemma round_nearest_even_locates (r : shr_record) (N D : Z) :
  locates r N D ->
  2 * Z.abs (round_nearest_even (shr_m r) (loc_of_shr_record r) * D - N) <= D /\
  shr_m r <= round_nearest_even (shr_m r) (loc_of_shr_record r) <= shr_m r + 1.
Proof.
  unfold locates. destruct r as [m b s]. simpl shr_m; simpl shr_r; simpl shr_s.
  destruct b, s; simpl; try destruct (Z.even m); lia.
Qed.


Lemma shr_locates (r : shr_record) (e n N D : Z) :
  0 <= n -> locates r N D ->
  locates (fst (shr r e n)) N (2 ^ n * D) /\
  snd (shr r e n) = e + n /\
  shr_m (fst (shr r e n)) = shr_m r / 2 ^ n.
Proof.
  intros Hn Hr. destruct n as [|p|p]; [| |lia].
  - simpl shr. simpl fst; simpl snd. rewrite Z.div_1_r.
    replace (2 ^ 0 * D) with D by lia. split; [exact Hr|]. split; lia.
  - unfold shr. simpl fst; simpl snd.
    split; [now apply iter_pos_shr_1_locates|]. split; [reflexivity|].
    apply iter_pos_shr_1_m. apply Hr.
Qed.

Lemma Zdigits2_bounds (m : Z) :
  0 < m -> 2 ^ (Zdigits2 m - 1) <= m < 2 ^ Zdigits2 m.
Proof.
  destruct m as [|p|p]; try lia. intros _. apply digits2_pos_bounds.
Qed.

Lemma Zdigits2_ge (m k : Z) : 0 <= k -> 2 ^ k <= m -> k < Zdigits2 m.
Proof.
  intros Hk Hm. assert (0 < 2 ^ k) by (apply Z.pow_pos_nonneg; lia).
  destruct m as [|p|p]; try lia. now apply Zdigits2_gt.
Qed.

(** Dropping [n] low bits drops [n] digits. *)
Lemma Zdigits2_div_pow2 (M n : Z) :
  0 <= n -> 2 ^ n <= M -> Zdigits2 (M / 2 ^ n) = Zdigits2 M - n.
Proof.
  intros Hn HM.
  assert (Hpow : 0 < 2 ^ n) by (apply Z.pow_pos_nonneg; lia).
  pose proof (Zdigits2_bounds M ltac:(lia)) as [Hlo Hhi].
  pose proof (Zdigits2_ge M n Hn HM) as Hd.
  assert (Hsplit : 2 ^ Zdigits2 M = 2 ^ (Zdigits2 M - n) * 2 ^ n).
  { rewrite <- Z.pow_add_r by lia. f_equal. lia. }
  assert (Hsplit' : 2 ^ (Zdigits2 M - 1) = 2 ^ (Zdigits2 M - n - 1) * 2 ^ n).
  { rewrite <- Z.pow_add_r by lia. f_equal. lia. }
  assert (Hq : 2 ^ (Zdigits2 M - n - 1) <= M / 2 ^ n < 2 ^ (Zdigits2 M - n)).
  { split.
    - apply Z.div_le_lower_bound; [lia|]. rewrite Z.mul_comm. lia.
    - apply Z.div_lt_upper_bound; [lia|]. rewrite Z.mul_comm. lia. }
  assert (Hle : Zdigits2 (M / 2 ^ n) <= Zdigits2 M - n).
  { apply Zdigits2_le; [lia|]. split; [|lia].
    apply Z.div_pos; lia. }
  assert (Hgt : Zdigits2 M - n - 1 < Zdigits2 (M / 2 ^ n)).
  { apply Zdigits2_ge; lia. }
  lia.
Qed.

(** The second shift of [binary_round_aux] renormalises a mantissa that
    rounding carried to [2^53]; it never loses a bit. *)
Lemma shr_fexp_renormalises (m' E m1 : Z) :
  0 <= m' -> -1074 <= E ->
  (m' = 0 -> E = -1074) ->
  (0 < m' -> Z.max (Zdigits2 m' + E - 53) (-1074) = E) ->
  m' <= m1 <= m' + 1 ->
  shr_m (fst (shr_fexp prec emax m1 E loc_Exact))
    * 2 ^ (snd (shr_fexp prec emax m1 E loc_Exact) + 1074)
  = m1 * 2 ^ (E + 1074) /\
  0 <= shr_m (fst (shr_fexp prec emax m1 E loc_Exact)).
Proof.
  intros Hm' HE Hzero Hpos Hm1.
  assert (Hn2 : Z.max (Zdigits2 m1 + E - 53) (-1074) - E <= 0
                \/ (Z.max (Zdigits2 m1 + E - 53) (-1074) - E = 1
                    /\ m1 = 9007199254740992)).
  { destruct (Z.eq_dec m' 0) as [->|Hnz].
    - specialize (Hzero eq_refl). subst E.
      assert (Hd : Zdigits2 m1 <= 1) by (apply Zdigits2_le; lia).
      left. lia.
    - specialize (Hpos ltac:(lia)).
      pose proof (Zdigits2_bounds m' ltac:(lia)) as [Hlo Hhi].
      pose proof (Zdigits2_nonneg m') as Hd0.
      assert (Hd' : 1 <= Zdigits2 m').
      { destruct m'; simpl in *; lia. }
      assert (Hge : Zdigits2 m' - 1 < Zdigits2 m1) by (apply Zdigits2_ge; lia).
      assert (Hstep : 2 ^ (Zdigits2 m' + 1) = 2 * 2 ^ Zdigits2 m').
      { rewrite Z.pow_add_r by lia. lia. }
      assert (Hle : Zdigits2 m1 <= Zdigits2 m' + 1) by (apply Zdigits2_le; lia).
      destruct (Z.eq_dec (Zdigits2 m1) (Zdigits2 m')) as [Heq|Hne]; [left; lia|].
      assert (Hd1 : Zdigits2 m1 = Zdigits2 m' + 1) by lia.
      destruct (Z.eq_dec (Zdigits2 m') 53) as [H53|H53]; [|left; lia].
      right. split; [lia|].
      pose proof (Zdigits2_bounds m1 ltac:(lia)) as [Hlo1 _].
      rewrite Hd1 in Hlo1. replace (Zdigits2 m' + 1 - 1) with (Zdigits2 m') in Hlo1 by lia.
      rewrite H53 in Hlo1, Hhi. change (2 ^ 53) with 9007199254740992 in Hlo1, Hhi. lia. }
  unfold shr_fexp. rewrite fexp64.
  destruct Hn2 as [Hn2|[Hn2 ->]].
  - destruct (Z.max (Zdigits2 m1 + E - 53) (-1074) - E) as [|p|p]; try lia; simpl; split; lia.
  - rewrite Hn2. simpl fst; simpl snd. simpl shr_m.
    replace (E + 1 + 1074) with (Z.succ (E + 1074)) by lia.
    rewrite Z.pow_succ_r by lia. split; lia.
Qed.


Lemma shr_m_record_of_loc (M : Z) (l : location) : shr_m (shr_record_of_loc M l) = M.
Proof. destruct l as [|[| |]]; reflexivity. Qed.

Lemma locates_lower (r : shr_record) (N D : Z) : locates r N D -> shr_m r * D <= N.
Proof.
  unfold locates. destruct (shr_r r), (shr_s r); lia.
Qed.

(** The error of one rounding.  The number to round is
    [N / D * 2^e], given by the mantissa [M], the exponent [e] and the
    location [l]; the rounded number [V * 2^-1074] is within half a unit
    of the rounding exponent [e + n], and unless that exponent is the
    bottom one the unit is at most [2^-52] of the number. *)
Lemma binary_round_aux_error (s : bool) (M e : Z) (l : location) (N D : Z) :
  0 <= M -> -1074 <= e ->
  0 <= Z.max (Zdigits2 M + e - 53) (-1074) - e ->
  locates (shr_record_of_loc M l) N D ->
  (forall s', binary_round_aux prec emax s M e l <> S754_infinity s') ->
  exists V n : Z,
    SFscaled (binary_round_aux prec emax s M e l) = cond_Zopp s V /\
    0 <= V /\ 0 <= n /\
    2 * Z.abs (V * D - N * 2 ^ (e + 1074)) <= 2 ^ n * D * 2 ^ (e + 1074) /\
    (e + n = -1074 \/ 4503599627370496 * (2 ^ n * D) <= N).
Proof.
  intros HM He Hn Hloc Hfin.
  set (n := Z.max (Zdigits2 M + e - 53) (-1074) - e) in *.
  assert (H1 : shr_fexp prec emax M e l = shr (shr_record_of_loc M l) e n).
  { unfold shr_fexp. now rewrite fexp64. }
  destruct (shr_locates (shr_record_of_loc M l) e n N D Hn Hloc) as (Hloc1 & He1 & Hm1).
  rewrite shr_m_record_of_loc in Hm1.
  revert Hfin. unfold binary_round_aux. rewrite H1.
  destruct (shr (shr_record_of_loc M l) e n) as [r1 e1].
  simpl fst in *; simpl snd in *. subst e1.
  set (K := 2 ^ n * D) in *.
  assert (Hpn : 0 < 2 ^ n) by (apply Z.pow_pos_nonneg; lia).
  assert (HD : 0 < D) by apply Hloc.
  assert (HK : 0 < K) by (unfold K; nia).
  pose proof (round_nearest_even_locates r1 N K Hloc1) as [Herr Hm1'].
  pose proof (locates_lower r1 N K Hloc1) as Hlow.
  set (m1 := round_nearest_even (shr_m r1) (loc_of_shr_record r1)) in *.
  assert (Hm'0 : 0 <= shr_m r1) by apply Hloc1.
  assert (Hzero : shr_m r1 = 0 -> e + n = -1074).
  { intros H0. rewrite H0 in Hm1. symmetry in Hm1.
    apply Z.div_small_iff in Hm1; [|lia].
    destruct Hm1 as [Hm1|Hm1]; [|lia].
    assert (Hd : Zdigits2 M <= n) by (apply Zdigits2_le; lia).
    unfold n in *. lia. }
  assert (Hpos : 0 < shr_m r1 -> Z.max (Zdigits2 (shr_m r1) + (e + n) - 53) (-1074) = e + n).
  { intros Hp. rewrite Hm1 in *.
    assert (HMn : 2 ^ n <= M).
    { destruct (Z_lt_le_dec M (2 ^ n)) as [Hlt|Hle]; [|exact Hle].
      rewrite Z.div_small in Hp by lia. lia. }
    rewrite Zdigits2_div_pow2 by lia. unfold n. lia. }
  destruct (shr_fexp_renormalises (shr_m r1) (e + n) m1 Hm'0 ltac:(lia) Hzero Hpos Hm1')
    as [Hval Hm2].
  destruct (shr_fexp prec emax m1 (e + n) loc_Exact) as [r2 e2].
  simpl fst in *; simpl snd in *.
  assert (Hsplit : 2 ^ (e + n + 1074) = 2 ^ n * 2 ^ (e + 1074)).
  { rewrite <- Z.pow_add_r by lia. f_equal. lia. }
  assert (HP : 0 < 2 ^ (e + 1074)) by (apply Z.pow_pos_nonneg; lia).
  intros Hfin.
  exists (m1 * 2 ^ (e + n + 1074)), n.
  split; [|split; [|split; [exact Hn|split]]].
  - rewrite <- Hval. destruct (shr_m r2) as [|q|q]; [| |lia].
    + simpl. now destruct s.
    + destruct (e2 <=? emax - prec); [reflexivity|].
      exfalso. now apply (Hfin s).
  - apply Z.mul_nonneg_nonneg; lia.
  - rewrite Hsplit.
    replace (m1 * (2 ^ n * 2 ^ (e + 1074)) * D - N * 2 ^ (e + 1074))
      with (2 ^ (e + 1074) * (m1 * K - N)) by (unfold K; ring).
    rewrite Z.abs_mul, (Z.abs_eq (2 ^ (e + 1074))) by lia.
    replace (2 ^ n * D * 2 ^ (e + 1074)) with (2 ^ (e + 1074) * K) by (unfold K; ring).
    nia.
  - destruct (Z.eq_dec (shr_m r1) 0) as [H0|H0]; [left; auto|].
    specialize (Hpos ltac:(lia)).
    destruct (Z.eq_dec (e + n) (-1074)) as [HE|HE]; [left; exact HE|].
    right.
    assert (Hd : Zdigits2 (shr_m r1) = 53) by lia.
    pose proof (Zdigits2_bounds (shr_m r1) ltac:(lia)) as [Hlo _].
    rewrite Hd in Hlo. change (2 ^ (53 - 1)) with 4503599627370496 in Hlo.
    nia.
Qed.


(** *** Aligning mantissas *)

Lemma iter_xO_spec (m d : positive) :
  Zpos (Pos.iter xO m d) = Zpos m * 2 ^ Zpos d /\
  Zpos (digits2_pos (Pos.iter xO m d)) = Zpos (digits2_pos m) + Zpos d.
Proof.
  induction d as [|d [IHv IHd]] using Pos.peano_ind.
  - simpl Pos.iter. simpl digits2_pos. rewrite Pos2Z.inj_succ.
    change (Zpos m~0) with (2 * Zpos m). split; lia.
  - rewrite Pos.iter_succ. simpl digits2_pos. rewrite !Pos2Z.inj_succ.
    change (Zpos (Pos.iter xO m d)~0) with (2 * Zpos (Pos.iter xO m d)).
    rewrite IHv, IHd, Z.pow_succ_r by lia. split; lia.
Qed.

Lemma shl_align_spec (m : positive) (e e' : Z) :
  snd (shl_align m e e') = Z.min e e' /\
  Zpos (fst (shl_align m e e')) = Zpos m * 2 ^ (e - Z.min e e') /\
  Zpos (digits2_pos (fst (shl_align m e e'))) + Z.min e e'
    = Zpos (digits2_pos m) + e.
Proof.
  unfold shl_align. destruct (e' - e) as [|d|d] eqn:Hd; simpl fst; simpl snd.
  - replace (Z.min e e') with e by lia. rewrite Z.sub_diag. split; [|split]; lia.
  - replace (Z.min e e') with e by lia. rewrite Z.sub_diag. split; [|split]; lia.
  - replace (Z.min e e') with e' by lia.
    destruct (iter_xO_spec m d) as [Hv Hdig]. rewrite Hv, Hdig.
    replace (e - e') with (Zpos d) by lia. split; [|split]; lia.
Qed.

Lemma shl_align_scaled (m : positive) (e e' : Z) :
  -1074 <= Z.min e e' ->
  Zpos (fst (shl_align m e e')) * 2 ^ (Z.min e e' + 1074) = Zpos m * 2 ^ (e + 1074).
Proof.
  intros Hmin. destruct (shl_align_spec m e e') as (_ & Hv & _). rewrite Hv.
  rewrite <- Z.mul_assoc, <- Z.pow_add_r by lia. do 2 f_equal. lia.
Qed.

Lemma cond_Zopp_abs (s : bool) (a b : Z) :
  Z.abs (cond_Zopp s a - cond_Zopp s b) = Z.abs (a - b).
Proof. destruct s; simpl; lia. Qed.

(** *** One rounding of an exact number *)

(** Rounding [m * 2^e]: the relative error is at most [2^-53], also in
    the subnormal range, where the number is already representable. *)
Lemma binary_round_error (s : bool) (m : positive) (e : Z) :
  -1074 <= e ->
  SFis_finite (binary_round prec emax s m e) = true ->
  exists V : Z,
    SFscaled (binary_round prec emax s m e) = cond_Zopp s V /\
    9007199254740992 * Z.abs (V - Zpos m * 2 ^ (e + 1074)) <= Zpos m * 2 ^ (e + 1074).
Proof.
  intros He. unfold binary_round. rewrite fexp64.
  set (f := Z.max (Zpos (digits2_pos m) + e - 53) (-1074)).
  destruct (shl_align_spec m e f) as (He2 & _ & Hdig).
  pose proof (shl_align_scaled m e f ltac:(lia)) as Hval.
  destruct (shl_align m e f) as [mz ez]. simpl fst in *; simpl snd in *. subst ez.
  intros Hfin.
  destruct (binary_round_aux_error s (Zpos mz) (Z.min e f) loc_Exact (Zpos mz) 1)
    as (V & n & HV & HV0 & Hn & Herr & Hrel).
  - lia.
  - lia.
  - simpl Zdigits2. rewrite Hdig. fold f. lia.
  - unfold locates. simpl. lia.
  - intros s' Hinf. rewrite Hinf in Hfin. discriminate Hfin.
  - exists V. split; [exact HV|]. rewrite <- Hval.
    set (P := 2 ^ (Z.min e f + 1074)) in *.
    assert (HP : 0 < P) by (apply Z.pow_pos_nonneg; lia).
    assert (Hpn : 0 < 2 ^ n) by (apply Z.pow_pos_nonneg; lia).
    rewrite !Z.mul_1_r in *.
    destruct Hrel as [Hbottom|Hnormal].
    + assert (n = 0) by lia. subst n.
      assert (HP1 : P = 1) by (unfold P; replace (Z.min e f + 1074) with 0 by lia; reflexivity).
      rewrite HP1 in *. lia.
    + nia.
Qed.


(** *** The error of an addition *)

Lemma cond_Zopp_mul (s : bool) (a P : Z) : cond_Zopp s (a * P) = cond_Zopp s a * P.
Proof. destruct s; simpl; lia. Qed.

Lemma binary_normalize_error (M e : Z) :
  -1074 <= e ->
  SFis_finite (binary_normalize prec emax M e false) = true ->
  9007199254740992
    * Z.abs (SFscaled (binary_normalize prec emax M e false) - M * 2 ^ (e + 1074))
  <= Z.abs (M * 2 ^ (e + 1074)).
Proof.
  intros He Hfin.
  assert (HP : 0 < 2 ^ (e + 1074)) by (apply Z.pow_pos_nonneg; lia).
  destruct M as [|m|m]; simpl binary_normalize in *.
  - simpl. lia.
  - destruct (binary_round_error false m e He Hfin) as (V & -> & Herr).
    simpl cond_Zopp. lia.
  - destruct (binary_round_error true m e He Hfin) as (V & -> & Herr).
    simpl cond_Zopp.
    replace (Zneg m * 2 ^ (e + 1074)) with (- (Zpos m * 2 ^ (e + 1074))) by lia.
    lia.
Qed.

(** A finite sum has finite operands and a relative error of at most
    [2^-53]. *)
Lemma SFadd_error (X Y : spec_float) :
  valid_binary X = true -> valid_binary Y = true ->
  SFis_finite (SF64add X Y) = true ->
  SFis_finite X = true /\ SFis_finite Y = true /\
  9007199254740992 * Z.abs (SFscaled (SF64add X Y) - (SFscaled X + SFscaled Y))
    <= Z.abs (SFscaled X + SFscaled Y).
Proof.
  intros HX HY.
  destruct X as [sx|sx| |sx mx ex], Y as [sy|sy| |sy my ey];
    try (destruct sx, sy; simpl; intros Hfin; try discriminate Hfin;
         repeat split; lia);
    try (destruct sx; simpl; intros Hfin; try discriminate Hfin; repeat split; lia);
    try (destruct sy; simpl; intros Hfin; try discriminate Hfin; repeat split; lia);
    try (simpl; intros Hfin; try discriminate Hfin; repeat split; lia).
  simpl in HX, HY. apply bounded_inv in HX as [HX _]. apply bounded_inv in HY as [HY _].
  unfold SF64add, SFadd. intros Hfin.
  split; [reflexivity|]. split; [reflexivity|].
  set (ez := Z.min ex ey) in *.
  assert (Hez : -1074 <= ez) by (unfold ez; lia).
  pose proof (binary_normalize_error _ ez Hez Hfin) as Herr.
  pose proof (shl_align_scaled mx ex ez ltac:(lia)) as Hvx.
  pose proof (shl_align_scaled my ey ez ltac:(lia)) as Hvy.
  replace (Z.min ex ez) with ez in Hvx by (unfold ez; lia).
  replace (Z.min ey ez) with ez in Hvy by (unfold ez; lia).
  unfold SFscaled at 2 3 4 5. rewrite <- Hvx, <- Hvy, !cond_Zopp_mul.
  rewrite <- Z.mul_add_distr_r. exact Herr.
Qed.


(** *** The error of a division by 365 *)

Lemma Prim2SF_365 : Prim2SF 365%float = S754_finite false 6421147906211840 (-44).
Proof. reflexivity. Qed.

(** The location computed from the remainder of an integer division
    places the quotient. *)
Lemma new_location_locates (q r D : Z) :
  0 <= q -> 0 <= r < D ->
  locates (shr_record_of_loc q (new_location D r)) (D * q + r) D.
Proof.
  intros Hq Hr. unfold new_location, new_location_even, new_location_odd.
  destruct (Z.even D) eqn:Heven.
  - destruct (Z.eqb_spec r 0) as [->|Hnz].
    + unfold locates. simpl. lia.
    + destruct (Z.compare_spec (2 * r) D) as [Heq|Hlt|Hgt];
        unfold locates; simpl; lia.
  - destruct (Z.eqb_spec r 0) as [->|Hnz].
    + unfold locates. simpl. lia.
    + assert (Hodd : D <> 2 * r).
      { intros ->. rewrite Z.even_mul in Heven. discriminate Heven. }
      destruct (Z.compare_spec (2 * r + 1) D) as [Heq|Hlt|Hgt];
        unfold locates; simpl; lia.
Qed.

(** The integer division behind [x / 365]: the quotient carries at
    least 53 digits unless it sits at the bottom exponent, so the
    rounding that follows never shifts left. *)
Lemma SFdiv_core_365 (mx : positive) (ex : Z) :
  Z.max (Zpos (digits2_pos mx) + ex - 53) (-1074) = ex ->
  exists (q e' : Z) (l : location),
    SFdiv_core_binary prec emax (Zpos mx) ex 6421147906211840 (-44) = (q, e', l) /\
    0 <= q /\ -1074 <= e' <= ex + 44 /\
    0 <= Z.max (Zdigits2 q + e' - 53) (-1074) - e' /\
    locates (shr_record_of_loc q l) (Zpos mx * 2 ^ (ex + 44 - e')) 6421147906211840.
Proof.
  intros Hcanon. unfold SFdiv_core_binary.
  change (Zdigits2 6421147906211840) with 53. simpl Zdigits2. rewrite fexp64.
  set (d1 := Zpos (digits2_pos mx)) in *.
  assert (He' : Z.min (Z.max (d1 + ex - (53 + -44) - 53) (-1074)) (ex - -44)
                = Z.max (d1 + ex - 62) (-1074)) by lia.
  cbv zeta. rewrite He'.
  set (e' := Z.max (d1 + ex - 62) (-1074)) in *.
  set (sh := ex - -44 - e').
  assert (Hsh : 0 <= sh) by (unfold sh, e'; lia).
  assert (Hm' : match sh with
                | 0 => Zpos mx
                | Zpos _ => Z.shiftl (Zpos mx) sh
                | Zneg _ => 0
                end = Zpos mx * 2 ^ sh).
  { destruct sh as [|p|p] eqn:Hp; [simpl; lia| |lia].
    now rewrite Z.shiftl_mul_pow2 by lia. }
  rewrite Hm'.
  assert (Hpsh : 0 < 2 ^ sh) by (apply Z.pow_pos_nonneg; lia).
  pose proof (Z_div_mod (Zpos mx * 2 ^ sh) 6421147906211840 eq_refl) as Hdiv.
  destruct (Z.div_eucl (Zpos mx * 2 ^ sh) 6421147906211840) as [q r].
  destruct Hdiv as [Heq Hr].
  assert (Hq : 0 <= q) by nia.
  exists q, e', (new_location 6421147906211840 r).
  split; [reflexivity|]. split; [exact Hq|]. split; [unfold e'; lia|].
  split.
  - destruct (Z.eq_dec e' (-1074)) as [Hb|Hb]; [lia|].
    assert (He'' : e' = d1 + ex - 62) by (unfold e' in *; lia).
    assert (Hsh' : sh = 106 - d1) by (unfold sh; lia).
    pose proof (digits2_pos_bounds mx) as [Hlo _]. fold d1 in Hlo.
    assert (Hbig : 2 ^ 105 <= Zpos mx * 2 ^ sh).
    { replace 105 with ((d1 - 1) + sh) by lia.
      rewrite Z.pow_add_r by (unfold d1; lia).
      apply Z.mul_le_mono_nonneg_r; lia. }
    change (2 ^ 105) with (4503599627370496 * 9007199254740992) in Hbig.
    assert (Hq52 : 2 ^ 52 <= q).
    { change (2 ^ 52) with 4503599627370496.
      destruct (Z_lt_le_dec q 4503599627370496) as [Hlt|Hle]; [exfalso|exact Hle].
      assert (6421147906211840 * q <= 6421147906211840 * 4503599627370495)
        by (apply Z.mul_le_mono_nonneg_l; lia).
      lia. }
    pose proof (Zdigits2_ge q 52 ltac:(lia) Hq52). lia.
  - replace (ex + 44 - e') with sh by (unfold sh; lia).
    rewrite Heq. now apply new_location_locates.
Qed.


(** A finite quotient by 365 has a finite dividend; its error is at
    most [2^-53] of the exact quotient, or half a unit of [2^-1074] in
    the subnormal range. *)
Lemma SFdiv365_error (X : spec_float) :
  valid_binary X = true ->
  SFis_finite (SF64div X (S754_finite false 6421147906211840 (-44))) = true ->
  SFis_finite X = true /\
  9007199254740992
    * Z.abs (365 * SFscaled (SF64div X (S754_finite false 6421147906211840 (-44)))
             - SFscaled X)
  <= Z.abs (SFscaled X) + 1643813863990231040.
Proof.
  intros HX.
  destruct X as [sx|sx| |sx mx ex]; unfold SF64div, SFdiv;
    try (intros Hfin; discriminate Hfin).
  - intros _. split; [reflexivity|]. simpl. lia.
  - simpl in HX. apply bounded_inv in HX as [HX _].
    destruct (SFdiv_core_365 mx ex HX) as (q & e' & l & -> & Hq & He' & Hshift & Hloc).
    intros Hfin. split; [reflexivity|].
    destruct (binary_round_aux_error (xorb sx false) q e' l _ _ Hq ltac:(lia) Hshift Hloc)
      as (V & n & HV & HV0 & Hn & Herr & Hrel).
    { intros s' Hinf. rewrite Hinf in Hfin. discriminate Hfin. }
    rewrite HV. rewrite xorb_false_r. unfold SFscaled.
    replace (365 * cond_Zopp sx V) with (cond_Zopp sx (365 * V)) by (destruct sx; simpl; lia).
    rewrite cond_Zopp_abs.
    set (Xabs := Zpos mx * 2 ^ (ex + 1074)).
    assert (HXabs : 0 <= Xabs) by (unfold Xabs; apply Z.mul_nonneg_nonneg; [lia|apply Z.pow_nonneg; lia]).
    replace (Z.abs (cond_Zopp sx Xabs)) with Xabs by (destruct sx; simpl; lia).
    set (P := 2 ^ (e' + 1074)) in *.
    assert (HP : 0 < P) by (apply Z.pow_pos_nonneg; lia).
    assert (Hpn : 0 < 2 ^ n) by (apply Z.pow_pos_nonneg; lia).
    assert (HNP : Zpos mx * 2 ^ (ex + 44 - e') * P = Xabs * 17592186044416).
    { unfold P, Xabs. rewrite <- !Z.mul_assoc. f_equal.
      change 17592186044416 with (2 ^ 44). rewrite <- !Z.pow_add_r by lia.
      f_equal. lia. }
    rewrite HNP in Herr.
    replace (V * 6421147906211840 - Xabs * 17592186044416)
      with (17592186044416 * (365 * V - Xabs)) in Herr by ring.
    rewrite Z.abs_mul in Herr. change (Z.abs 17592186044416) with 17592186044416 in Herr.
    replace (2 ^ n * 6421147906211840 * P)
      with (17592186044416 * (365 * (2 ^ n * P))) in Herr by ring.
    assert (Herr' : 2 * Z.abs (365 * V - Xabs) <= 365 * (2 ^ n * P)) by lia.
    destruct Hrel as [Hbottom|Hnormal].
    + assert (n = 0) by lia. subst n.
      assert (HP1 : P = 1) by (unfold P; replace (e' + 1074) with 0 by lia; reflexivity).
      rewrite HP1 in Herr'. simpl in Herr'. lia.
    + assert (Hn' : 4503599627370496 * (2 ^ n * 6421147906211840) * P
                    <= Zpos mx * 2 ^ (ex + 44 - e') * P)
        by (apply Z.mul_le_mono_nonneg_r; lia).
      rewrite HNP in Hn'.
      replace (4503599627370496 * (2 ^ n * 6421147906211840) * P)
        with (17592186044416 * (4503599627370496 * (365 * (2 ^ n * P)))) in Hn' by ring.
      lia.
Qed.


(** *** Errors add up *)

Lemma abs_both (x : Z) : - Z.abs x <= x <= Z.abs x.
Proof. lia. Qed.

(** Magnitudes as unknowns, for linear arithmetic. *)
Ltac bound_abs x :=
  let H := fresh "Habs" in
  pose proof (abs_both x) as H; revert H; generalize (Z.abs x); intros ? H.

Lemma abs_telescope (T U3 S1 S2 S3 U1 U2 a1 a2 a3 a4 b1 b2 b3 b4 : Z) :
  365 * Z.abs (T - U3)
  <= Z.abs (365 * T - S3) + Z.abs (S3 - (S2 + a4)) + Z.abs (S2 - (S1 + a3))
     + Z.abs (S1 - (a1 + a2))
     + (Z.abs (365 * b1 - a1) + Z.abs (365 * b2 - a2) + Z.abs (365 * b3 - a3)
        + Z.abs (365 * b4 - a4))
     + 365 * (Z.abs (U3 - (U2 + b4)) + Z.abs (U2 - (U1 + b3)) + Z.abs (U1 - (b1 + b2))).
Proof.
  replace (365 * Z.abs (T - U3)) with (Z.abs (365 * (T - U3)))
    by (rewrite Z.abs_mul; reflexivity).
  apply Z.abs_le.
  bound_abs (365 * T - S3). bound_abs (S3 - (S2 + a4)). bound_abs (S2 - (S1 + a3)).
  bound_abs (S1 - (a1 + a2)).
  bound_abs (365 * b1 - a1). bound_abs (365 * b2 - a2). bound_abs (365 * b3 - a3).
  bound_abs (365 * b4 - a4).
  bound_abs (U3 - (U2 + b4)). bound_abs (U2 - (U1 + b3)). bound_abs (U1 - (b1 + b2)).
  lia.
Qed.

Lemma abs_sum_back (a b : Z) : Z.abs a <= 365 * Z.abs b + Z.abs (365 * b - a).
Proof. lia. Qed.

Lemma abs_result (s x y : Z) : Z.abs s <= Z.abs (x + y) + Z.abs (s - (x + y)).
Proof. lia. Qed.

Ltac name_magnitudes :=
  repeat match goal with
  | H : ?P |- _ => match type of P with Prop => revert H end
  end;
  repeat match goal with
  | |- context [Z.abs ?x] =>
      let n := fresh "n" in
      let Hn := fresh "Hn" in
      pose proof (Z.abs_nonneg x) as Hn; revert Hn; generalize (Z.abs x); intros n Hn
  end;
  intros.

(** Three rounded additions and a rounded division by 365, against four
    rounded divisions and three rounded additions. *)
Lemma forecast_sum_arith (a1 a2 a3 a4 S1 S2 S3 T b1 b2 b3 b4 U1 U2 U3 : Z) :
  9007199254740992 * Z.abs (S1 - (a1 + a2)) <= Z.abs (a1 + a2) ->
  9007199254740992 * Z.abs (S2 - (S1 + a3)) <= Z.abs (S1 + a3) ->
  9007199254740992 * Z.abs (S3 - (S2 + a4)) <= Z.abs (S2 + a4) ->
  9007199254740992 * Z.abs (365 * T - S3) <= Z.abs S3 + 1643813863990231040 ->
  9007199254740992 * Z.abs (365 * b1 - a1) <= Z.abs a1 + 1643813863990231040 ->
  9007199254740992 * Z.abs (365 * b2 - a2) <= Z.abs a2 + 1643813863990231040 ->
  9007199254740992 * Z.abs (365 * b3 - a3) <= Z.abs a3 + 1643813863990231040 ->
  9007199254740992 * Z.abs (365 * b4 - a4) <= Z.abs a4 + 1643813863990231040 ->
  9007199254740992 * Z.abs (U1 - (b1 + b2)) <= Z.abs (b1 + b2) ->
  9007199254740992 * Z.abs (U2 - (U1 + b3)) <= Z.abs (U1 + b3) ->
  9007199254740992 * Z.abs (U3 - (U2 + b4)) <= Z.abs (U2 + b4) ->
  562949953421312 * Z.abs (T - U3)
  <= Z.abs b1 + Z.abs b2 + Z.abs b3 + Z.abs b4 + 1688849860263936.
Proof.
  intros HS1 HS2 HS3 HT Hb1 Hb2 Hb3 Hb4 HU1 HU2 HU3.
  pose proof (abs_telescope T U3 S1 S2 S3 U1 U2 a1 a2 a3 a4 b1 b2 b3 b4) as Htel.
  pose proof (Z.abs_triangle a1 a2) as Ha12.
  pose proof (abs_result S1 a1 a2) as HrS1.
  pose proof (Z.abs_triangle S1 a3) as HaS1.
  pose proof (abs_result S2 S1 a3) as HrS2.
  pose proof (Z.abs_triangle S2 a4) as HaS2.
  pose proof (abs_result S3 S2 a4) as HrS3.
  pose proof (abs_sum_back a1 b1) as Hk1.
  pose proof (abs_sum_back a2 b2) as Hk2.
  pose proof (abs_sum_back a3 b3) as Hk3.
  pose proof (abs_sum_back a4 b4) as Hk4.
  pose proof (Z.abs_triangle b1 b2) as Hb12.
  pose proof (abs_result U1 b1 b2) as HrU1.
  pose proof (Z.abs_triangle U1 b3) as HbU1.
  pose proof (abs_result U2 U1 b3) as HrU2.
  pose proof (Z.abs_triangle U2 b4) as HbU2.
  name_magnitudes.
  lia.
Qed.

(** *** On binary64 numbers *)

(** [scaled] on a few numbers: the smallest subnormal is one unit. *)
Lemma scaled_examples :
  scaled 0x1p-1074 = 1 /\ scaled 1 = 2 ^ 1074 /\ scaled (-1.5) = - (3 * 2 ^ 1073) /\
  scaled 0 = 0 /\ scaled 365 = 365 * 2 ^ 1074.
Proof. repeat split; vm_compute; reflexivity. Qed.

Lemma is_finite_SF (x : float) : is_finite x = true -> SFis_finite (Prim2SF x) = true.
Proof.
  unfold is_finite, is_nan, is_infinity.
  rewrite !FloatAxioms.eqb_spec, abs_spec.
  destruct (Prim2SF x) as [s|s| |s m e]; try reflexivity.
  - change (Prim2SF infinity) with (S754_infinity false). simpl.
    rewrite orb_true_r. discriminate.
  - simpl. discriminate.
Qed.

Lemma add_error (x y : float) :
  SFis_finite (Prim2SF (x + y)) = true ->
  SFis_finite (Prim2SF x) = true /\ SFis_finite (Prim2SF y) = true /\
  9007199254740992 * Z.abs (scaled (x + y) - (scaled x + scaled y))
    <= Z.abs (scaled x + scaled y).
Proof.
  unfold scaled. rewrite add_spec.
  apply SFadd_error; apply Prim2SF_valid.
Qed.

Lemma div365_error (x : float) :
  SFis_finite (Prim2SF (x / 365)) = true ->
  SFis_finite (Prim2SF x) = true /\
  9007199254740992 * Z.abs (365 * scaled (x / 365) - scaled x)
    <= Z.abs (scaled x) + 1643813863990231040.
Proof.
  unfold scaled. rewrite div_spec, Prim2SF_365.
  apply SFdiv365_error, Prim2SF_valid.
Qed.

(** Dividing a sum of four numbers by 365, against summing the four
    quotients: when both results are finite they differ by at most
    [2^-49] of the quotients' magnitudes, plus three units of [2^-1074]
    for quotients rounded in the subnormal range. *)
Lemma sum_then_divide_error (c f l h : float) :
  is_finite ((c + f + l + h) / 365) = true ->
  is_finite (c / 365 + f / 365 + l / 365 + h / 365) = true ->
  2 ^ 49 * Z.abs (scaled ((c + f + l + h) / 365)
                  - scaled (c / 365 + f / 365 + l / 365 + h / 365))
  <= Z.abs (scaled (c / 365)) + Z.abs (scaled (f / 365))
     + Z.abs (scaled (l / 365)) + Z.abs (scaled (h / 365)) + 3 * 2 ^ 49.
Proof.
  intros HT HU. apply is_finite_SF in HT, HU.
  destruct (div365_error _ HT) as (HS3 & HeT).
  destruct (add_error _ _ HS3) as (HS2 & _ & HeS3).
  destruct (add_error _ _ HS2) as (HS1 & _ & HeS2).
  destruct (add_error _ _ HS1) as (_ & _ & HeS1).
  destruct (add_error _ _ HU) as (HU2 & Hb4 & HeU3).
  destruct (add_error _ _ HU2) as (HU1 & Hb3 & HeU2).
  destruct (add_error _ _ HU1) as (Hb1 & Hb2 & HeU1).
  destruct (div365_error _ Hb1) as (_ & Heb1).
  destruct (div365_error _ Hb2) as (_ & Heb2).
  destruct (div365_error _ Hb3) as (_ & Heb3).
  destruct (div365_error _ Hb4) as (_ & Heb4).
  change (2 ^ 49) with 562949953421312.
  change (3 * 562949953421312) with 1688849860263936.
  exact (forecast_sum_arith _ _ _ _ _ _ _ _ _ _ _ _ _ _ _
           HeS1 HeS2 HeS3 HeT Heb1 Heb2 Heb3 Heb4 HeU1 HeU2 HeU3).
Qed.

End RoundingError.


(** * The revenue calculator *)

(** ** [calculate] *)

(** C1. On the base-case parameter set, [calculate] returns
    clearing = 73,000,000, fundingSpread = 0.05488,
    deployedNotional = 800,000,000, funding = 43,904,000,
    liquidations = 2,400,000, hedging = 3,650,000 and
    total = 122,954,000 (each decimal read as the nearest binary64). *)
Theorem calculate_base_case :
  let r := calculate
    {| dailyVolume := 2000000000%float; internalMatchRatio := 0.50%float;
       clearingFee := 1.5%float; nettingFee := 0.5%float;
       hlFundingRate := 8%float; archBorrowRate := 2.5%float;
       frictionCost := 1.2%float; equity := 100000000%float;
       leverage := 8.0%float; monthlyLiquidations := 50000000%float;
       liquidationFee := 0.4%float; dailyHedge := 200000000%float;
       hedgeEfficiency := 0.5%float |} in
  clearing r = 73000000%float /\
  fundingSpread r = 0.05488%float /\
  deployedNotional r = 800000000%float /\
  funding r = 43904000%float /\
  liquidations r = 2400000%float /\
  hedging r = 3650000%float /\
  total r = 122954000%float.
Proof. vm_compute. repeat split; reflexivity. Qed.

(** C2. The returned [total] is the sum, in source order, of the four
    returned streams: the same binary64 value, for every parameter set
    (finite or not). *)
Theorem total_is_sum_of_streams (params : ScenarioParams) :
  let r := calculate params in
  total r = (clearing r + funding r + liquidations r + hedging r)%float.
Proof. reflexivity. Qed.

(** Under the numeric comparison [=?] (JavaScript's [===] on numbers)
    the total compares equal to that sum exactly when it is not NaN. *)
Lemma total_compares_equal_unless_nan (params : ScenarioParams) :
  let r := calculate params in
  (total r =? clearing r + funding r + liquidations r + hedging r)%float
  = negb (is_nan (total r)).
Proof. cbv zeta. unfold is_nan. now rewrite negb_involutive. Qed.

(** C8. [monthlyAvg] is [total / 12] and [dailyAvg] is [total / 365]. *)
Theorem averages_of_total (params : ScenarioParams) :
  let r := calculate params in
  monthlyAvg r = (total r / 12)%float /\ dailyAvg r = (total r / 365)%float.
Proof. split; reflexivity. Qed.

(** C9. [fundingROE] is [fundingSpread * leverage * 100]. *)
Theorem fundingROE_formula (params : ScenarioParams) :
  fundingROE (calculate params)
  = (fundingSpread (calculate params) * leverage params * 100)%float.
Proof. reflexivity. Qed.

(** ** The funding stream *)

(** C6, as stated, fails where the product underflows: with a spread of
    about -1e-200 and a deployed notional of about 1e-200 the funding is
    [-0], which is not less than zero. *)
Lemma funding_underflows_to_negative_zero :
  let params :=
    {| dailyVolume := 2000000000%float; internalMatchRatio := 0.50%float;
       clearingFee := 1.5%float; nettingFee := 0.5%float;
       hlFundingRate := 0%float; archBorrowRate := 1e-198%float;
       frictionCost := 0%float; equity := 1e-200%float;
       leverage := 1%float; monthlyLiquidations := 50000000%float;
       liquidationFee := 0.4%float; dailyHedge := 200000000%float;
       hedgeEfficiency := 0.5%float |} in
  (hlFundingRate params / 100 - archBorrowRate params / 100
     - frictionCost params / 10000 <? 0)%float = true /\
  (0 <? deployedNotional (calculate params))%float = true /\
  (funding (calculate params) <? 0)%float = false /\
  funding (calculate params) = neg_zero.
Proof. cbv zeta. repeat split; vm_compute; reflexivity. Qed.

(** C6 (amended). [calculate] never clamps the funding stream: the
    returned funding is the binary64 product
    [fundingSpread * deployedNotional], and whenever
    [hlFundingRate/100 - archBorrowRate/100 - frictionCost/10000] is
    negative and [deployedNotional] is positive that product is negative,
    or is [-0] when it is too small to be represented. *)
Theorem funding_is_unclamped_product (params : ScenarioParams) :
  funding (calculate params)
  = (fundingSpread (calculate params) * deployedNotional (calculate params))%float /\
  ((hlFundingRate params / 100 - archBorrowRate params / 100
      - frictionCost params / 10000 <? 0)%float = true ->
   (0 <? deployedNotional (calculate params))%float = true ->
   (funding (calculate params) <? 0)%float = true \/
   funding (calculate params) = neg_zero).
Proof.
  split; [reflexivity|].
  intros Hspread Hnotional.
  exact (mul_neg_pos _ _ Hspread Hnotional).
Qed.

Lemma funding_is_unclamped_product_witness :
  (hlFundingRate bear_literal / 100 - archBorrowRate bear_literal / 100
     - frictionCost bear_literal / 10000 <? 0)%float = true /\
  (0 <? deployedNotional (calculate bear_literal))%float = true /\
  funding (calculate bear_literal)
  = (fundingSpread (calculate bear_literal)
     * deployedNotional (calculate bear_literal))%float /\
  ((funding (calculate bear_literal) <? 0)%float = true \/
   funding (calculate bear_literal) = neg_zero).
Proof.
  split; [reflexivity|]. split; [reflexivity|].
  split.
  - exact (proj1 (funding_is_unclamped_product bear_literal)).
  - apply (proj2 (funding_is_unclamped_product bear_literal)); reflexivity.
Defined.

(** C7, as stated, fails at both ends of the binary64 range.  With
    leverage 1e-300 and equity 1e308 the doubled equity overflows, and
    the deployed notional and the funding become [Infinity] instead of
    doubling; with leverage 0.3 and the smallest positive equity the
    deployed notional goes from 0 to 5e-324. *)
Lemma doubling_equity_fails_out_of_range :
  let over :=
    {| dailyVolume := 2000000000%float; internalMatchRatio := 0.50%float;
       clearingFee := 1.5%float; nettingFee := 0.5%float;
       hlFundingRate := 8%float; archBorrowRate := 2.5%float;
       frictionCost := 1.2%float; equity := 1e308%float;
       leverage := 1e-300%float; monthlyLiquidations := 50000000%float;
       liquidationFee := 0.4%float; dailyHedge := 200000000%float;
       hedgeEfficiency := 0.5%float |} in
  let under :=
    {| dailyVolume := 2000000000%float; internalMatchRatio := 0.50%float;
       clearingFee := 1.5%float; nettingFee := 0.5%float;
       hlFundingRate := 8%float; archBorrowRate := 2.5%float;
       frictionCost := 1.2%float; equity := 0x1p-1074%float;
       leverage := 0.3%float; monthlyLiquidations := 50000000%float;
       liquidationFee := 0.4%float; dailyHedge := 200000000%float;
       hedgeEfficiency := 0.5%float |} in
  let over2 := spread_with over K_equity (2 * equity over)%float in
  let under2 := spread_with under K_equity (2 * equity under)%float in
  deployedNotional (calculate over2) = infinity /\
  deployedNotional (calculate over2)
    <> (2 * deployedNotional (calculate over))%float /\
  funding (calculate over2) <> (2 * funding (calculate over))%float /\
  deployedNotional (calculate under) = 0%float /\
  deployedNotional (calculate under2) = 0x1p-1074%float /\
  deployedNotional (calculate under2)
    <> (2 * deployedNotional (calculate under))%float.
Proof.
  cbv zeta.
  split; [vm_compute; reflexivity|].
  split; [float_discriminate|].
  split; [float_discriminate|].
  split; [vm_compute; reflexivity|].
  split; [vm_compute; reflexivity|].
  float_discriminate.
Qed.

(** C7 (amended). As long as doubling neither overflows (equity and
    deployed notional below [2^1023] in magnitude) nor meets a product
    rounded in the subnormal range (deployed notional and funding at
    least [2^-1021] in magnitude, or a zero factor), replacing equity by
    [2 * equity] keeps the funding spread and exactly doubles the
    deployed notional and the funding. *)
Theorem doubling_equity_doubles_funding (params : ScenarioParams) :
  doubles_finitely (equity params) = true ->
  doubles_finitely (deployedNotional (calculate params)) = true ->
  product_scales (leverage params) (equity params) = true ->
  product_scales (fundingSpread (calculate params))
                 (deployedNotional (calculate params)) = true ->
  fundingSpread (calculate (spread_with params K_equity (2 * equity params)%float))
  = fundingSpread (calculate params) /\
  deployedNotional (calculate (spread_with params K_equity (2 * equity params)%float))
  = (2 * deployedNotional (calculate params))%float /\
  funding (calculate (spread_with params K_equity (2 * equity params)%float))
  = (2 * funding (calculate params))%float.
Proof.
  intros HE HN HLE HsN.
  assert (Hnotional :
    deployedNotional (calculate (spread_with params K_equity (2 * equity params)%float))
    = (2 * deployedNotional (calculate params))%float).
  { exact (mul_two_comm (leverage params) (equity params) HE HLE). }
  split; [reflexivity|]. split; [exact Hnotional|].
  change (funding (calculate (spread_with params K_equity (2 * equity params)%float)))
    with (fundingSpread (calculate params)
          * deployedNotional (calculate (spread_with params K_equity (2 * equity params)%float)))%float.
  rewrite Hnotional.
  exact (mul_two_comm _ _ HN HsN).
Qed.

Lemma doubling_equity_doubles_funding_witness :
  doubles_finitely (equity base_literal) = true /\
  doubles_finitely (deployedNotional (calculate base_literal)) = true /\
  product_scales (leverage base_literal) (equity base_literal) = true /\
  product_scales (fundingSpread (calculate base_literal))
                 (deployedNotional (calculate base_literal)) = true /\
  fundingSpread (calculate (spread_with base_literal K_equity (2 * equity base_literal)%float))
  = fundingSpread (calculate base_literal) /\
  deployedNotional (calculate (spread_with base_literal K_equity (2 * equity base_literal)%float))
  = (2 * deployedNotional (calculate base_literal))%float /\
  funding (calculate (spread_with base_literal K_equity (2 * equity base_literal)%float))
  = (2 * funding (calculate base_literal))%float.
Proof.
  split; [reflexivity|]. split; [reflexivity|].
  split; [reflexivity|]. split; [reflexivity|].
  apply (doubling_equity_doubles_funding base_literal); reflexivity.
Defined.

(** ** [generateMonthlyForecast] *)

(** With fuel for the thirteen guard evaluations the loop returns the
    twelve points, one per month, in order. *)
Lemma forecast_unfold (fuel : nat) (params : ScenarioParams) :
  13 <= fuel ->
  generateMonthlyForecast fuel params
  = Some (map (fun m =>
        {| MonthlyForecastPoint.month := m;
           MonthlyForecastPoint.clearing := (clearing (calculate params) / 365)%float;
           MonthlyForecastPoint.funding := (funding (calculate params) / 365)%float;
           MonthlyForecastPoint.liquidations := (liquidations (calculate params) / 365)%float;
           MonthlyForecastPoint.hedging := (hedging (calculate params) / 365)%float;
           MonthlyForecastPoint.total := dailyAvg (calculate params) |})
      [1; 2; 3; 4; 5; 6; 7; 8; 9; 10; 11; 12]%float).
Proof.
  intros Hfuel.
  do 13 (destruct fuel as [|fuel]; [lia|]).
  reflexivity.
Qed.

(** C3. With fuel for the thirteen guard evaluations,
    [generateMonthlyForecast] returns exactly 12 points whose [month]
    fields are 1 to 12 in order; each point carries
    [clearing/365], [funding/365], [liquidations/365], [hedging/365] of
    [calculate params] and [dailyAvg] as its total, so the five numeric
    fields agree on all 12 entries. *)
Theorem forecast_twelve_flat_points (fuel : nat) (params : ScenarioParams) :
  13 <= fuel ->
  exists pts : list MonthlyForecastPoint.t,
    generateMonthlyForecast fuel params = Some pts /\
    length pts = 12 /\
    map MonthlyForecastPoint.month pts
      = [1; 2; 3; 4; 5; 6; 7; 8; 9; 10; 11; 12]%float /\
    Forall (fun pt =>
      MonthlyForecastPoint.clearing pt = (clearing (calculate params) / 365)%float /\
      MonthlyForecastPoint.funding pt = (funding (calculate params) / 365)%float /\
      MonthlyForecastPoint.liquidations pt = (liquidations (calculate params) / 365)%float /\
      MonthlyForecastPoint.hedging pt = (hedging (calculate params) / 365)%float /\
      MonthlyForecastPoint.total pt = dailyAvg (calculate params)) pts /\
    (forall pt pt', In pt pts -> In pt' pts ->
      MonthlyForecastPoint.clearing pt = MonthlyForecastPoint.clearing pt' /\
      MonthlyForecastPoint.funding pt = MonthlyForecastPoint.funding pt' /\
      MonthlyForecastPoint.liquidations pt = MonthlyForecastPoint.liquidations pt' /\
      MonthlyForecastPoint.hedging pt = MonthlyForecastPoint.hedging pt' /\
      MonthlyForecastPoint.total pt = MonthlyForecastPoint.total pt').
Proof.
  intros Hfuel. rewrite (forecast_unfold fuel params Hfuel).
  eexists. split; [reflexivity|].
  split; [reflexivity|]. split; [reflexivity|].
  assert (Hall : Forall (fun pt =>
      MonthlyForecastPoint.clearing pt = (clearing (calculate params) / 365)%float /\
      MonthlyForecastPoint.funding pt = (funding (calculate params) / 365)%float /\
      MonthlyForecastPoint.liquidations pt = (liquidations (calculate params) / 365)%float /\
      MonthlyForecastPoint.hedging pt = (hedging (calculate params) / 365)%float /\
      MonthlyForecastPoint.total pt = dailyAvg (calculate params))
    (map (fun m =>
        {| MonthlyForecastPoint.month := m;
           MonthlyForecastPoint.clearing := (clearing (calculate params) / 365)%float;
           MonthlyForecastPoint.funding := (funding (calculate params) / 365)%float;
           MonthlyForecastPoint.liquidations := (liquidations (calculate params) / 365)%float;
           MonthlyForecastPoint.hedging := (hedging (calculate params) / 365)%float;
           MonthlyForecastPoint.total := dailyAvg (calculate params) |})
      [1; 2; 3; 4; 5; 6; 7; 8; 9; 10; 11; 12]%float)).
  { apply List.Forall_forall. intros pt Hin.
    apply List.in_map_iff in Hin. destruct Hin as [m [<- _]].
    repeat split. }
  split; [exact Hall|].
  intros pt pt' Hpt Hpt'.
  rewrite List.Forall_forall in Hall.
  destruct (Hall pt Hpt) as (-> & -> & -> & -> & ->).
  destruct (Hall pt' Hpt') as (-> & -> & -> & -> & ->).
  repeat split.
Qed.

Lemma forecast_twelve_flat_points_witness :
  13 <= 13 /\
  exists pts : list MonthlyForecastPoint.t,
    generateMonthlyForecast 13 base_literal = Some pts /\
    length pts = 12 /\
    map MonthlyForecastPoint.month pts
      = [1; 2; 3; 4; 5; 6; 7; 8; 9; 10; 11; 12]%float /\
    Forall (fun pt =>
      MonthlyForecastPoint.clearing pt = (clearing (calculate base_literal) / 365)%float /\
      MonthlyForecastPoint.funding pt = (funding (calculate base_literal) / 365)%float /\
      MonthlyForecastPoint.liquidations pt = (liquidations (calculate base_literal) / 365)%float /\
      MonthlyForecastPoint.hedging pt = (hedging (calculate base_literal) / 365)%float /\
      MonthlyForecastPoint.total pt = dailyAvg (calculate base_literal)) pts /\
    (forall pt pt', In pt pts -> In pt' pts ->
      MonthlyForecastPoint.clearing pt = MonthlyForecastPoint.clearing pt' /\
      MonthlyForecastPoint.funding pt = MonthlyForecastPoint.funding pt' /\
      MonthlyForecastPoint.liquidations pt = MonthlyForecastPoint.liquidations pt' /\
      MonthlyForecastPoint.hedging pt = MonthlyForecastPoint.hedging pt' /\
      MonthlyForecastPoint.total pt = MonthlyForecastPoint.total pt').
Proof.
  split; [lia | apply (forecast_twelve_flat_points 13 base_literal); lia].
Defined.

(** C10, as stated, fails on the stored [bull] preset: none of the twelve
    points has a total equal to the sum of its own four fields
    (2236460.2739726026 against 2236460.273972603). *)
Lemma forecast_total_differs_from_field_sum_bull :
  exists pts : list MonthlyForecastPoint.t,
    generateMonthlyForecast 13 bull_literal = Some pts /\
    pts <> [] /\
    Forall (fun pt =>
      MonthlyForecastPoint.total pt
      <> (MonthlyForecastPoint.clearing pt + MonthlyForecastPoint.funding pt
          + MonthlyForecastPoint.liquidations pt + MonthlyForecastPoint.hedging pt)%float /\
      (MonthlyForecastPoint.total pt
       =? MonthlyForecastPoint.clearing pt + MonthlyForecastPoint.funding pt
          + MonthlyForecastPoint.liquidations pt + MonthlyForecastPoint.hedging pt)%float
      = false) pts.
Proof.
  eexists. split; [vm_compute; reflexivity|].
  split; [discriminate|].
  repeat (apply List.Forall_cons; [split; [float_discriminate | vm_compute; reflexivity]|]).
  apply List.Forall_nil.
Qed.

(** The agreement of the total with the field sum cannot be promised
    without a finiteness condition: here the annual sum overflows, so
    every point has the total [Infinity] beside four fields whose sum is
    finite. *)
Lemma forecast_total_overflows_alone :
  exists pts : list MonthlyForecastPoint.t,
    generateMonthlyForecast 13
      (mkScenarioParams 2.7e305 1 10000 0 0 0 0 0 0 0 0 2.7e305 10000)
    = Some pts /\
    pts <> [] /\
    Forall (fun pt =>
      MonthlyForecastPoint.total pt = infinity /\
      is_finite (MonthlyForecastPoint.clearing pt + MonthlyForecastPoint.funding pt
                 + MonthlyForecastPoint.liquidations pt
                 + MonthlyForecastPoint.hedging pt)%float = true) pts.
Proof.
  eexists. split; [vm_compute; reflexivity|].
  split; [discriminate|].
  repeat (apply List.Forall_cons; [split; vm_compute; reflexivity|]).
  apply List.Forall_nil.
Qed.

(** C10 (amended). Each forecast point carries the four annual streams
    each divided by 365, and as its total the annual total divided by
    365, [(clearing + funding + liquidations + hedging) / 365] on the
    annual streams: one division of the sum, not the sum of the point's
    own four fields.  The two are
    not equal in general, but whenever both are finite they are close:
    measured in units of [2^-1074] ([scaled]),

      [2^49 * |total - (clearing + funding + liquidations + hedging)|
         <= |clearing| + |funding| + |liquidations| + |hedging| + 3 * 2^49]

    on the point's own fields, that is, they differ by at most [2^-49]
    of the sum of the fields' magnitudes, plus [3 * 2^-1074]. *)
Theorem forecast_point_total_near_field_sum (fuel : nat) (params : ScenarioParams) :
  13 <= fuel ->
  exists pts : list MonthlyForecastPoint.t,
    generateMonthlyForecast fuel params = Some pts /\
    length pts = 12 /\
    Forall (fun pt =>
      MonthlyForecastPoint.clearing pt = (clearing (calculate params) / 365)%float /\
      MonthlyForecastPoint.funding pt = (funding (calculate params) / 365)%float /\
      MonthlyForecastPoint.liquidations pt = (liquidations (calculate params) / 365)%float /\
      MonthlyForecastPoint.hedging pt = (hedging (calculate params) / 365)%float /\
      MonthlyForecastPoint.total pt
      = ((clearing (calculate params) + funding (calculate params)
          + liquidations (calculate params) + hedging (calculate params)) / 365)%float /\
      (is_finite (MonthlyForecastPoint.total pt) = true ->
       is_finite (MonthlyForecastPoint.clearing pt + MonthlyForecastPoint.funding pt
                  + MonthlyForecastPoint.liquidations pt
                  + MonthlyForecastPoint.hedging pt)%float = true ->
       (2 ^ 49 * Z.abs (scaled (MonthlyForecastPoint.total pt)
                        - scaled (MonthlyForecastPoint.clearing pt
                                  + MonthlyForecastPoint.funding pt
                                  + MonthlyForecastPoint.liquidations pt
                                  + MonthlyForecastPoint.hedging pt)%float)
        <= Z.abs (scaled (MonthlyForecastPoint.clearing pt))
           + Z.abs (scaled (MonthlyForecastPoint.funding pt))
           + Z.abs (scaled (MonthlyForecastPoint.liquidations pt))
           + Z.abs (scaled (MonthlyForecastPoint.hedging pt))
           + 3 * 2 ^ 49)%Z)) pts.
Proof.
  intros Hfuel. rewrite (forecast_unfold fuel params Hfuel).
  eexists. split; [reflexivity|]. split; [reflexivity|].
  apply List.Forall_forall. intros pt Hin.
  apply List.in_map_iff in Hin. destruct Hin as [m [<- _]].
  do 5 (split; [reflexivity|]).
  cbv [MonthlyForecastPoint.total MonthlyForecastPoint.clearing
       MonthlyForecastPoint.funding MonthlyForecastPoint.liquidations
       MonthlyForecastPoint.hedging].
  apply sum_then_divide_error.
Qed.

(** On the [bull] preset, where the total and the field sum differ, both
    are finite and the bound applies to each of the twelve points. *)
Lemma forecast_point_total_near_field_sum_witness :
  13 <= 13 /\
  exists pts : list MonthlyForecastPoint.t,
    generateMonthlyForecast 13 bull_literal = Some pts /\
    length pts = 12 /\
    Forall (fun pt =>
      MonthlyForecastPoint.clearing pt = (clearing (calculate bull_literal) / 365)%float /\
      MonthlyForecastPoint.funding pt = (funding (calculate bull_literal) / 365)%float /\
      MonthlyForecastPoint.liquidations pt
      = (liquidations (calculate bull_literal) / 365)%float /\
      MonthlyForecastPoint.hedging pt = (hedging (calculate bull_literal) / 365)%float /\
      MonthlyForecastPoint.total pt
      = ((clearing (calculate bull_literal) + funding (calculate bull_literal)
          + liquidations (calculate bull_literal) + hedging (calculate bull_literal))
         / 365)%float /\
      is_finite (MonthlyForecastPoint.total pt) = true /\
      is_finite (MonthlyForecastPoint.clearing pt + MonthlyForecastPoint.funding pt
                 + MonthlyForecastPoint.liquidations pt
                 + MonthlyForecastPoint.hedging pt)%float = true /\
      (2 ^ 49 * Z.abs (scaled (MonthlyForecastPoint.total pt)
                       - scaled (MonthlyForecastPoint.clearing pt
                                 + MonthlyForecastPoint.funding pt
                                 + MonthlyForecastPoint.liquidations pt
                                 + MonthlyForecastPoint.hedging pt)%float)
       <= Z.abs (scaled (MonthlyForecastPoint.clearing pt))
          + Z.abs (scaled (MonthlyForecastPoint.funding pt))
          + Z.abs (scaled (MonthlyForecastPoint.liquidations pt))
          + Z.abs (scaled (MonthlyForecastPoint.hedging pt))
          + 3 * 2 ^ 49)%Z) pts.
Proof.
  split; [lia|].
  destruct (forecast_point_total_near_field_sum 13 bull_literal) as (pts & Hgen & Hlen & Hall);
    [lia|].
  exists pts. split; [exact Hgen|]. split; [exact Hlen|].
  rewrite (forecast_unfold 13 bull_literal) in Hgen by lia.
  apply (inj Some) in Hgen. subst pts.
  rewrite List.Forall_forall in Hall. apply List.Forall_forall. intros pt Hin.
  destruct (Hall pt Hin) as (Hc & Hf & Hl & Hh & Htotal & Hnear).
  apply List.in_map_iff in Hin. destruct Hin as [m [<- _]].
  assert (Hfin : is_finite (dailyAvg (calculate bull_literal)) = true)
    by (vm_compute; reflexivity).
  assert (Hsum : is_finite (clearing (calculate bull_literal) / 365
                            + funding (calculate bull_literal) / 365
                            + liquidations (calculate bull_literal) / 365
                            + hedging (calculate bull_literal) / 365)%float = true)
    by (vm_compute; reflexivity).
  split; [exact Hc|]. split; [exact Hf|]. split; [exact Hl|]. split; [exact Hh|].
  split; [exact Htotal|]. split; [exact Hfin|]. split; [exact Hsum|].
  exact (Hnear Hfin Hsum).
Defined.

(** * Presets and component state *)

(** ** The preset table *)

Lemma SCENARIOS_bear : SCENARIOS !! "bear" = Some bear_loc.
Proof. reflexivity. Qed.

Lemma SCENARIOS_base : SCENARIOS !! "base" = Some base_loc.
Proof. reflexivity. Qed.

Lemma SCENARIOS_bull : SCENARIOS !! "bull" = Some bull_loc.
Proof. reflexivity. Qed.

Lemma SCENARIOS_other (name : string) :
  name <> "bear" -> name <> "base" -> name <> "bull" ->
  SCENARIOS !! name = None.
Proof.
  intros Hbear Hbase Hbull. unfold SCENARIOS.
  rewrite !lookup_insert_ne by congruence.
  apply lookup_empty.
Qed.

(** The names every object inherits are read from [Object.prototype]. *)
Lemma SCENARIOS_get_inherited :
  SCENARIOS_get "constructor" = Returns (Inherited "constructor") /\
  SCENARIOS_get "toString" = Returns (Inherited "toString") /\
  SCENARIOS_get "__proto__" = Returns (Inherited "__proto__").
Proof. repeat split. Qed.

(** C4, as stated, fails: reading the unknown name [bull2] completes
    normally with [undefined]; it does not throw [UnknownScenario]. *)
Lemma unknown_scenario_does_not_throw :
  SCENARIOS_get "bull2" = Returns Undefined /\
  SCENARIOS_get "bull2" <> Throws "UnknownScenario".
Proof. split; [vm_compute; reflexivity | discriminate]. Qed.

(** C4 (amended). The table has exactly the keys [bear], [base] and
    [bull]; reading any other name completes normally, never with an
    error, and never yields a parameter set: it gives [undefined], or,
    for a name that every object inherits from [Object.prototype]
    ([constructor], [toString], [__proto__], ...), the inherited
    built-in. *)
Theorem unknown_scenario_is_no_preset (name : string) :
  name <> "bear" -> name <> "base" -> name <> "bull" ->
  SCENARIOS_get name
    = Returns (if bool_decide (name ∈ Object_prototype) then Inherited name
               else Undefined) /\
  (forall l : positive, SCENARIOS_get name <> Returns (Ref l)) /\
  (forall error : string, SCENARIOS_get name <> Throws error) /\
  dom SCENARIOS = ({["bear"; "base"; "bull"]} : gset string).
Proof.
  intros Hbear Hbase Hbull.
  assert (Hget : SCENARIOS_get name
    = Returns (if bool_decide (name ∈ Object_prototype) then Inherited name
               else Undefined)).
  { unfold SCENARIOS_get. rewrite (SCENARIOS_other name Hbear Hbase Hbull).
    now destruct (bool_decide (name ∈ Object_prototype)). }
  split; [exact Hget|]. rewrite Hget.
  split; [|split].
  - intros l. now destruct (bool_decide (name ∈ Object_prototype)).
  - intros error. discriminate.
  - unfold SCENARIOS. rewrite !dom_insert_L, dom_empty_L. set_solver.
Qed.

Lemma unknown_scenario_is_no_preset_witness :
  "bull2" <> "bear" /\ "bull2" <> "base" /\ "bull2" <> "bull" /\
  SCENARIOS_get "bull2"
    = Returns (if bool_decide ("bull2" ∈ Object_prototype) then Inherited "bull2"
               else Undefined) /\
  (forall l : positive, SCENARIOS_get "bull2" <> Returns (Ref l)) /\
  (forall error : string, SCENARIOS_get "bull2" <> Throws error) /\
  dom SCENARIOS = ({["bear"; "base"; "bull"]} : gset string).
Proof.
  split; [discriminate|]. split; [discriminate|]. split; [discriminate|].
  apply (unknown_scenario_is_no_preset "bull2"); discriminate.
Defined.

(** ** Aliasing and functional updates *)

(** Allocation never touches a cell that already exists. *)
Lemma alloc_extends (h : store) (o : ScenarioParams) :
  h ⊆ (alloc h o).2 /\ (alloc h o).2 !! (alloc h o).1 = Some o /\
  h !! (alloc h o).1 = None.
Proof.
  unfold alloc; simpl.
  assert (Hfresh : h !! fresh (dom h) = None).
  { apply not_elem_of_dom. apply is_fresh. }
  split; [|split].
  - now apply insert_subseteq.
  - apply lookup_insert_eq.
  - exact Hfresh.
Qed.

Lemma functional_update_extends (h h' : store) (l l' : positive)
    (key : Key) (value : float) :
  functional_update h l key value = Some (l', h') ->
  h ⊆ h' /\ h !! l' = None /\
  exists prev, h !! l = Some prev /\ h' !! l' = Some (spread_with prev key value).
Proof.
  unfold functional_update. destruct (h !! l) as [prev|] eqn:Hprev; [|discriminate].
  intros Heq. assert (Halloc : alloc h (spread_with prev key value) = (l', h'))
    by congruence. clear Heq.
  destruct (alloc_extends h (spread_with prev key value)) as (Hsub & Hnew & Hold).
  rewrite Halloc in Hsub, Hnew, Hold. simpl in Hsub, Hnew, Hold.
  split; [exact Hsub|]. split; [exact Hold|].
  exists prev. split; [reflexivity | exact Hnew].
Qed.

Lemma dispatch_extends (st : AppState) (ev : Event) :
  objects st ⊆ objects (dispatch st ev).
Proof.
  destruct ev as [t|key value|key value|key value]; simpl.
  - reflexivity.
  - unfold handleBearChange.
    destruct (functional_update _ _ _ _) as [[l h]|] eqn:Hupd; [|reflexivity].
    simpl. now apply functional_update_extends in Hupd.
  - unfold handleBaseChange.
    destruct (functional_update _ _ _ _) as [[l h]|] eqn:Hupd; [|reflexivity].
    simpl. now apply functional_update_extends in Hupd.
  - unfold handleBullChange.
    destruct (functional_update _ _ _ _) as [[l h]|] eqn:Hupd; [|reflexivity].
    simpl. now apply functional_update_extends in Hupd.
Qed.

Lemma is_Some_weaken (h h' : store) (l : positive) :
  h ⊆ h' -> is_Some (h !! l) -> is_Some (h' !! l).
Proof.
  intros Hsub [o Ho]. exists o. exact (lookup_weaken _ _ _ _ Ho Hsub).
Qed.

Lemma dispatch_slots_live (st : AppState) (ev : Event) :
  slots_live st -> slots_live (dispatch st ev).
Proof.
  intros (Hbear & Hbase & Hbull).
  destruct ev as [t|key value|key value|key value]; simpl.
  - repeat split; assumption.
  - unfold handleBearChange.
    destruct (functional_update _ _ _ _) as [[l h]|] eqn:Hupd;
      [|repeat split; assumption].
    apply functional_update_extends in Hupd.
    destruct Hupd as (Hsub & _ & prev & _ & Hnew).
    repeat split; simpl; eauto using is_Some_weaken.
  - unfold handleBaseChange.
    destruct (functional_update _ _ _ _) as [[l h]|] eqn:Hupd;
      [|repeat split; assumption].
    apply functional_update_extends in Hupd.
    destruct Hupd as (Hsub & _ & prev & _ & Hnew).
    repeat split; simpl; eauto using is_Some_weaken.
  - unfold handleBullChange.
    destruct (functional_update _ _ _ _) as [[l h]|] eqn:Hupd;
      [|repeat split; assumption].
    apply functional_update_extends in Hupd.
    destruct Hupd as (Hsub & _ & prev & _ & Hnew).
    repeat split; simpl; eauto using is_Some_weaken.
Qed.

Lemma run_extends (evs : list Event) (st : AppState) :
  objects st ⊆ objects (run st evs).
Proof.
  revert st. induction evs as [|ev evs IH]; intros st; simpl.
  - reflexivity.
  - etransitivity; [apply (dispatch_extends st ev) | apply IH].
Qed.

Lemma run_slots_live (evs : list Event) (st : AppState) :
  slots_live st -> slots_live (run st evs).
Proof.
  revert st. induction evs as [|ev evs IH]; intros st Hlive; simpl.
  - exact Hlive.
  - apply IH. now apply dispatch_slots_live.
Qed.

Lemma init_slots_live : slots_live BitFrostEngine_init.
Proof. repeat split; vm_compute; eauto. Qed.

(** An edit of a live slot allocates the edited copy and leaves the
    previous object as it was. *)
Lemma handleBaseChange_copies (st : AppState) (key : Key) (value : float)
    (prev : ScenarioParams) :
  objects st !! baseParams st = Some prev ->
  objects (handleBaseChange key value st) !! baseParams (handleBaseChange key value st)
    = Some (spread_with prev key value) /\
  objects (handleBaseChange key value st) !! baseParams st = Some prev /\
  baseParams (handleBaseChange key value st) <> baseParams st.
Proof.
  intros Hprev. unfold handleBaseChange.
  destruct (functional_update _ _ _ _) as [[l h]|] eqn:Hupd.
  - apply functional_update_extends in Hupd.
    destruct Hupd as (Hsub & Hfresh & prev' & Hprev' & Hnew). simpl.
    assert (prev' = prev) by congruence. subst prev'.
    split; [exact Hnew|]. split.
    + exact (lookup_weaken _ _ _ _ Hprev Hsub).
    + intros ->. congruence.
  - unfold functional_update in Hupd. rewrite Hprev in Hupd. discriminate.
Qed.

(** C5, as stated, fails: a retrieval hands out the stored object itself.
    Two retrievals of [base] are the same reference, so an assignment
    through the first is seen through the second and in the table. *)
Lemma retrieved_preset_is_the_stored_object :
  let first := SCENARIOS !!! "base" in
  let second := SCENARIOS !!! "base" in
  let after := assign initial_store first K_equity 1%float in
  first = second /\
  equity <$> initial_store !! second = Some 100000000%float /\
  equity <$> after !! second = Some 1%float /\
  after !! (SCENARIOS !!! "base") <> initial_store !! (SCENARIOS !!! "base").
Proof.
  cbv zeta. split; [reflexivity|]. split; [reflexivity|]. split; [reflexivity|].
  intros Heq.
  apply (f_equal (fun o => Prim2SF (default 0%float (equity <$> o)))) in Heq.
  vm_compute in Heq. discriminate Heq.
Qed.

(** C5 (amended). Retrieving the [base] preset yields the stored object
    (always the same reference, hence equal values), and the application
    never assigns to a parameter object: whatever the sequence of tab
    clicks and edits, the three stored presets keep their literal values,
    every slot refers to a live object, and one more event leaves every
    existing object as it is. *)
Theorem presets_shared_but_never_mutated (evs : list Event) :
  SCENARIOS_get "base" = Returns (Ref base_loc) /\
  initial_store !! base_loc = Some base_literal /\
  objects (run BitFrostEngine_init evs) !! bear_loc = Some bear_literal /\
  objects (run BitFrostEngine_init evs) !! base_loc = Some base_literal /\
  objects (run BitFrostEngine_init evs) !! bull_loc = Some bull_literal /\
  slots_live (run BitFrostEngine_init evs) /\
  forall ev : Event,
    objects (run BitFrostEngine_init evs)
    ⊆ objects (dispatch (run BitFrostEngine_init evs) ev).
Proof.
  pose proof (run_extends evs BitFrostEngine_init) as Hsub.
  split; [reflexivity|]. split; [reflexivity|].
  split; [|split; [|split; [|split]]].
  - apply (lookup_weaken _ _ _ _ (eq_refl : initial_store !! bear_loc = Some bear_literal) Hsub).
  - apply (lookup_weaken _ _ _ _ (eq_refl : initial_store !! base_loc = Some base_literal) Hsub).
  - apply (lookup_weaken _ _ _ _ (eq_refl : initial_store !! bull_loc = Some bull_literal) Hsub).
  - apply run_slots_live, init_slots_live.
  - intros ev. apply dispatch_extends.
Qed.

(** * Beyond the calculator: display, edits and ranges *)

(** ** Formatting *)

Lemma Prim2SF_1e3 : Prim2SF 1000%float = S754_finite false 8796093022208000 (-43).
Proof. reflexivity. Qed.
Lemma Prim2SF_1e6 : Prim2SF 1000000%float = S754_finite false 8589934592000000 (-33).
Proof. reflexivity. Qed.
Lemma Prim2SF_1e9 : Prim2SF 1000000000%float = S754_finite false 8388608000000000 (-23).
Proof. reflexivity. Qed.

(** A positive finite number with a smaller exponent is below whatever
    a positive finite number with a larger exponent is below. *)
Lemma SFleb_finite_weaken (m1 m2 : positive) (e1 e2 : Z) (V : spec_float) :
  (e1 < e2)%Z ->
  SFleb (S754_finite false m2 e2) V = true ->
  SFleb (S754_finite false m1 e1) V = true.
Proof.
  intros He. unfold SFleb.
  destruct V as [s|s| |s m e]; cbv [SFcompare]; try discriminate; try (intros H; exact H).
  destruct s; [discriminate|].
  destruct (Z.compare_spec e2 e) as [Heq|Hlt|Hgt]; try discriminate.
  - intros _. assert (Hcmp : (e1 ?= e)%Z = Lt) by (apply Z.compare_lt_iff; lia).
    now rewrite Hcmp.
  - intros _. assert (Hcmp : (e1 ?= e)%Z = Lt) by (apply Z.compare_lt_iff; lia).
    now rewrite Hcmp.
Qed.

(** Strictly below a positive finite number is not at or above it. *)
Lemma SFltb_not_SFleb (mc : positive) (ec : Z) (V : spec_float) :
  SFltb V (S754_finite false mc ec) = true ->
  SFleb (S754_finite false mc ec) V = false.
Proof.
  unfold SFltb, SFleb.
  destruct V as [s|s| |s m e]; cbv [SFcompare]; try discriminate; try reflexivity.
  - destruct s; [reflexivity | discriminate].
  - destruct s; [reflexivity|].
    rewrite (Z.compare_antisym e ec).
    destruct (e ?= ec)%Z; simpl; try discriminate; try reflexivity.
    change (Pos.compare_cont Eq mc m) with (Pos.compare mc m).
    change (Pos.compare_cont Eq m mc) with (Pos.compare m mc).
    rewrite (Pos.compare_antisym m mc).
    destruct (Pos.compare m mc); simpl; try discriminate; reflexivity.
Qed.

Lemma leb_1e6_1e3 (v : float) :
  (1000000 <=? v)%float = true -> (1000 <=? v)%float = true.
Proof.
  rewrite !leb_spec, Prim2SF_1e3, Prim2SF_1e6. apply SFleb_finite_weaken. lia.
Qed.

Lemma leb_1e9_1e6 (v : float) :
  (1000000000 <=? v)%float = true -> (1000000 <=? v)%float = true.
Proof.
  rewrite !leb_spec, Prim2SF_1e6, Prim2SF_1e9. apply SFleb_finite_weaken. lia.
Qed.

Lemma ltb_1e9_not_leb (v : float) :
  (v <? 1000000000)%float = true -> (1000000000 <=? v)%float = false.
Proof. rewrite ltb_spec, leb_spec, Prim2SF_1e9. apply SFltb_not_SFleb. Qed.

Lemma ltb_1e6_not_leb (v : float) :
  (v <? 1000000)%float = true -> (1000000 <=? v)%float = false.
Proof. rewrite ltb_spec, leb_spec, Prim2SF_1e6. apply SFltb_not_SFleb. Qed.

Lemma not_leb_1e3 (v : float) :
  (1000 <=? v)%float = false ->
  (1000000 <=? v)%float = false /\ (1000000000 <=? v)%float = false.
Proof.
  intros H3.
  assert (H6 : (1000000 <=? v)%float = false).
  { destruct (1000000 <=? v)%float eqn:E; [|reflexivity].
    apply leb_1e6_1e3 in E. congruence. }
  split; [exact H6|].
  destruct (1000000000 <=? v)%float eqn:E; [|reflexivity].
  apply leb_1e9_1e6 in E. congruence.
Qed.

Lemma formatCurrency_below_1e3 (toFixed : float -> nat -> string) (value : float) :
  (1000 <=? value)%float = false ->
  formatCurrency toFixed value = "$" +:+ toFixed value 2.
Proof.
  intros H3. unfold formatCurrency.
  destruct (not_leb_1e3 _ H3) as [H6 H9]. now rewrite H9, H6, H3.
Qed.

(** [formatCurrency] by range: billions from 1e9, millions on
    [1e6, 1e9), thousands on [1e3, 1e6), and no abbreviation whenever
    [value >= 1000] is false. *)
Theorem formatCurrency_by_range (toFixed : float -> nat -> string) (value : float) :
  ((1000000000 <=? value)%float = true ->
     formatCurrency toFixed value
     = "$" +:+ toFixed (value / 1000000000)%float 2 +:+ "B") /\
  ((1000000 <=? value)%float = true -> (value <? 1000000000)%float = true ->
     formatCurrency toFixed value
     = "$" +:+ toFixed (value / 1000000)%float 2 +:+ "M") /\
  ((1000 <=? value)%float = true -> (value <? 1000000)%float = true ->
     formatCurrency toFixed value
     = "$" +:+ toFixed (value / 1000)%float 2 +:+ "K") /\
  ((1000 <=? value)%float = false ->
     formatCurrency toFixed value = "$" +:+ toFixed value 2).
Proof.
  unfold formatCurrency. repeat split.
  - intros ->. reflexivity.
  - intros H6 H9. now rewrite (ltb_1e9_not_leb _ H9), H6.
  - intros H3 H6. 
    assert (H9 : (1000000000 <=? value)%float = false).
    { destruct (1000000000 <=? value)%float eqn:E; [|reflexivity].
      apply leb_1e9_1e6 in E. rewrite (ltb_1e6_not_leb _ H6) in E. discriminate. }
    now rewrite H9, (ltb_1e6_not_leb _ H6), H3.
  - apply formatCurrency_below_1e3.
Qed.

Lemma ltb_0_not_leb_1e3 (v : float) :
  (v <? 0)%float = true -> (1000 <=? v)%float = false.
Proof.
  rewrite ltb_spec, leb_spec, Prim2SF_1e3.
  change (Prim2SF 0) with (S754_zero false).
  unfold SFltb, SFleb.
  destruct (Prim2SF v) as [s|s| |s m e]; cbv [SFcompare]; try discriminate.
  - destruct s; [reflexivity | discriminate].
  - destruct s; [reflexivity | discriminate].
Qed.

(** The amount column of the breakdown table never abbreviates a
    negative funding stream. *)
Theorem negative_funding_is_displayed_in_full
    (toFixed : float -> nat -> string) (params : ScenarioParams) :
  (hlFundingRate params / 100 - archBorrowRate params / 100
     - frictionCost params / 10000 <? 0)%float = true ->
  (0 <? deployedNotional (calculate params))%float = true ->
  formatCurrency toFixed (funding (calculate params))
  = "$" +:+ toFixed (funding (calculate params)) 2 /\
  In ("Funding Arbitrage",
      "$" +:+ toFixed (funding (calculate params)) 2,
      formatPercentage toFixed
        (funding (calculate params) / total (calculate params) * 100)%float)
     (revenueBreakdown toFixed (calculate params)).
Proof.
  intros Hspread Hnotional.
  assert (Hfmt : formatCurrency toFixed (funding (calculate params))
                 = "$" +:+ toFixed (funding (calculate params)) 2).
  { apply formatCurrency_below_1e3.
    destruct (mul_neg_pos _ _ Hspread Hnotional) as [Hneg|Hzero].
    - now apply ltb_0_not_leb_1e3.
    - change (funding (calculate params)) with
        ((hlFundingRate params / 100 - archBorrowRate params / 100
          - frictionCost params / 10000) * deployedNotional (calculate params))%float.
      rewrite Hzero. reflexivity. }
  split; [exact Hfmt|].
  unfold revenueBreakdown. rewrite Hfmt. right. left. reflexivity.
Qed.

Lemma negative_funding_is_displayed_in_full_witness :
  ((hlFundingRate bear_literal / 100 - archBorrowRate bear_literal / 100
     - frictionCost bear_literal / 10000 <? 0)%float = true) /\
  ((0 <? deployedNotional (calculate bear_literal))%float = true) /\
  (formatCurrency (fun (_ : float) (_ : nat) => "0.00") (funding (calculate bear_literal))
  = "$" +:+ (fun (_ : float) (_ : nat) => "0.00") (funding (calculate bear_literal)) 2 /\
  In ("Funding Arbitrage",
      "$" +:+ (fun (_ : float) (_ : nat) => "0.00") (funding (calculate bear_literal)) 2,
      formatPercentage (fun (_ : float) (_ : nat) => "0.00")
        (funding (calculate bear_literal) / total (calculate bear_literal) * 100)%float)
     (revenueBreakdown (fun (_ : float) (_ : nat) => "0.00") (calculate bear_literal))).
Proof.
  split; [reflexivity|].
  split; [reflexivity|].
  apply (negative_funding_is_displayed_in_full (fun (_ : float) (_ : nat) => "0.00") bear_literal); reflexivity.
Defined.

(** ** The pie chart *)

Lemma Math_max_0 (f : float) :
  Math_max [0%float; f]
  = if is_nan f then nan else if (0 <? f)%float then f else 0%float.
Proof.
  unfold Math_max, Math_max_from.
  change (is_nan 0) with false. cbv iota.
  change (is_positive_zero 0 && is_negative_zero neg_infinity) with false. cbv iota zeta.
  change (neg_infinity <? 0)%float with true. cbv iota.
  destruct (is_nan f); [reflexivity|].
  change (is_negative_zero 0) with false. rewrite andb_false_r. reflexivity.
Qed.

Lemma ltb_0_asym (f : float) : (0 <? f)%float = true -> (f <? 0)%float = false.
Proof.
  rewrite !ltb_spec. change (Prim2SF 0) with (S754_zero false).
  unfold SFltb.
  destruct (Prim2SF f) as [s|s| |s m e]; cbv [SFcompare]; try discriminate;
    destruct s; try discriminate; reflexivity.
Qed.

Lemma SFcompare_refl (X : spec_float) :
  X <> S754_nan -> SFcompare X X = Some Eq.
Proof.
  destruct X as [s|s| |s m e]; cbv [SFcompare]; try congruence.
  - now destruct s.
  - intros _. rewrite Z.compare_refl, Pos.compare_cont_refl. now destruct s.
Qed.

Lemma is_nan_Prim2SF (f : float) : is_nan f = true <-> Prim2SF f = S754_nan.
Proof.
  unfold is_nan. rewrite FloatAxioms.eqb_spec. unfold SFeqb. split.
  - intros Hnan. destruct (Prim2SF f) as [s|s| |s m e] eqn:E; try reflexivity;
      rewrite SFcompare_refl in Hnan by discriminate; discriminate Hnan.
  - intros ->. reflexivity.
Qed.

Lemma is_nan_not_positive (f : float) : is_nan f = true -> (0 <? f)%float = false.
Proof.
  intros Hnan. apply is_nan_Prim2SF in Hnan. rewrite ltb_spec, Hnan. reflexivity.
Qed.

(** The funding slice of the pie is [Math.max(0, funding)]: the funding
    itself when it is positive, NaN when it is NaN, and [+0] otherwise; it
    is never negative and never [-0]. *)
Theorem chart_funding_slice_is_clamped (result : RevenueResult) :
  In ("Funding", Math_max [0%float; funding result]) (chartData result) /\
  (Math_max [0%float; funding result] <? 0)%float = false /\
  Math_max [0%float; funding result] <> neg_zero /\
  ((0 <? funding result)%float = true ->
     Math_max [0%float; funding result] = funding result) /\
  (is_nan (funding result) = true -> Math_max [0%float; funding result] = nan) /\
  (is_nan (funding result) = false -> (0 <? funding result)%float = false ->
     Math_max [0%float; funding result] = 0%float).
Proof.
  split; [right; left; reflexivity|].
  rewrite Math_max_0.
  destruct (is_nan (funding result)) eqn:Hnan;
    [|destruct (0 <? funding result)%float eqn:Hpos].
  - rewrite (is_nan_not_positive _ Hnan).
    split; [reflexivity|]. split; [float_discriminate|].
    split; [discriminate|]. split; [reflexivity | discriminate].
  - split; [now apply ltb_0_asym|].
    split; [intros Heq; rewrite Heq in Hpos; discriminate Hpos|].
    split; [reflexivity|]. split; [discriminate | discriminate].
  - split; [reflexivity|]. split; [float_discriminate|].
    split; [discriminate|]. split; [discriminate | reflexivity].
Qed.

(** A negative funding stream is surfaced by [calculate] and clamped by
    the pie chart: its slice is [+0]. *)
Theorem negative_funding_is_clamped_in_pie (params : ScenarioParams) :
  (hlFundingRate params / 100 - archBorrowRate params / 100
     - frictionCost params / 10000 <? 0)%float = true ->
  (0 <? deployedNotional (calculate params))%float = true ->
  In ("Funding", 0%float) (chartData (calculate params)).
Proof.
  intros Hspread Hnotional.
  assert (Hmax : Math_max [0%float; funding (calculate params)] = 0%float).
  { rewrite Math_max_0.
    destruct (mul_neg_pos _ _ Hspread Hnotional) as [Hneg|Hzero].
    - change ((hlFundingRate params / 100 - archBorrowRate params / 100
          - frictionCost params / 10000) * deployedNotional (calculate params))%float
        with (funding (calculate params)) in Hneg.
      assert (Hnan : is_nan (funding (calculate params)) = false).
      { destruct (is_nan (funding (calculate params))) eqn:E; [|reflexivity].
        apply is_nan_Prim2SF in E. rewrite ltb_spec, E in Hneg. discriminate Hneg. }
      rewrite Hnan.
      destruct (0 <? funding (calculate params))%float eqn:Hpos; [|reflexivity].
      apply ltb_0_asym in Hpos. congruence.
    - change (funding (calculate params)) with
        ((hlFundingRate params / 100 - archBorrowRate params / 100
          - frictionCost params / 10000) * deployedNotional (calculate params))%float.
      rewrite Hzero. reflexivity. }
  unfold chartData. rewrite Hmax. right. left. reflexivity.
Qed.

Lemma negative_funding_is_clamped_in_pie_witness :
  ((hlFundingRate bear_literal / 100 - archBorrowRate bear_literal / 100
     - frictionCost bear_literal / 10000 <? 0)%float = true) /\
  ((0 <? deployedNotional (calculate bear_literal))%float = true) /\
  (In ("Funding", 0%float) (chartData (calculate bear_literal))).
Proof.
  split; [reflexivity|].
  split; [reflexivity|].
  apply (negative_funding_is_clamped_in_pie bear_literal); reflexivity.
Defined.

(** ** Edits *)

(** [{ ...prev, [key]: value }] read back: the overridden field holds
    [value], every other field holds what [prev] held. *)
Theorem spread_with_read_back (prev : ScenarioParams) (key key' : Key) (value : float) :
  get_field key (spread_with prev key value) = value /\
  (key' <> key ->
   get_field key' (spread_with prev key value) = get_field key' prev).
Proof.
  split.
  - destruct key; reflexivity.
  - intros Hne. destruct key, key'; try reflexivity; congruence.
Qed.

(** Edits compose: the last write to a field wins, writes to different
    fields commute, and writing back what a field holds changes nothing. *)
Theorem spread_with_compose (prev : ScenarioParams) (key key' : Key) (v v' : float) :
  spread_with (spread_with prev key v) key v' = spread_with prev key v' /\
  (key <> key' ->
   spread_with (spread_with prev key v) key' v'
   = spread_with (spread_with prev key' v') key v) /\
  spread_with prev key (get_field key prev) = prev.
Proof.
  split; [|split].
  - destruct key; reflexivity.
  - intros Hne. destruct key, key'; try reflexivity; congruence.
  - destruct prev, key; reflexivity.
Qed.

(** ** The component state under events *)

Lemma functional_update_live (h : gmap positive ScenarioParams) (l : positive)
    (key : Key) (value : float) :
  is_Some (h !! l) -> is_Some (functional_update h l key value).
Proof. intros [prev Hprev]. unfold functional_update. rewrite Hprev. eauto. Qed.

Lemma apply_edits_app (p : ScenarioParams) (a b : list (Key * float)) :
  apply_edits p (a ++ b) = apply_edits (apply_edits p a) b.
Proof. unfold apply_edits. apply fold_left_app. Qed.

Lemma edits_of_cons (sc : Scenario) (ev : Event) (evs : list Event) :
  edits_of sc (ev :: evs) = edits_of sc [ev] ++ edits_of sc evs.
Proof. unfold edits_of. simpl. now rewrite app_nil_r. Qed.

(** One event: the addressed scenario gets the edited copy, the two
    others keep the object they had. *)
Lemma dispatch_currentParams (sc : Scenario) (st : AppState) (ev : Event) :
  slots_live st ->
  currentParams sc (dispatch st ev)
  = (fun p => apply_edits p (edits_of sc [ev])) <$> currentParams sc st.
Proof.
  intros (Hbear & Hbase & Hbull). unfold currentParams.
  destruct ev as [t|key value|key value|key value]; simpl dispatch.
  - destruct sc; simpl;
      match goal with |- ?o = _ => destruct o end; reflexivity.
  - unfold handleBearChange.
    destruct (functional_update_live _ _ key value Hbear) as [[l h] Hupd].
    rewrite Hupd. apply functional_update_extends in Hupd.
    destruct Hupd as (Hsub & _ & prev & Hprev & Hnew).
    destruct Hbase as [pbase Hpbase]. destruct Hbull as [pbull Hpbull].
    destruct sc; simpl.
    + now rewrite Hnew, Hprev.
    + now rewrite (lookup_weaken _ _ _ _ Hpbase Hsub), Hpbase.
    + now rewrite (lookup_weaken _ _ _ _ Hpbull Hsub), Hpbull.
  - unfold handleBaseChange.
    destruct (functional_update_live _ _ key value Hbase) as [[l h] Hupd].
    rewrite Hupd. apply functional_update_extends in Hupd.
    destruct Hupd as (Hsub & _ & prev & Hprev & Hnew).
    destruct Hbear as [pbear Hpbear]. destruct Hbull as [pbull Hpbull].
    destruct sc; simpl.
    + now rewrite (lookup_weaken _ _ _ _ Hpbear Hsub), Hpbear.
    + now rewrite Hnew, Hprev.
    + now rewrite (lookup_weaken _ _ _ _ Hpbull Hsub), Hpbull.
  - unfold handleBullChange.
    destruct (functional_update_live _ _ key value Hbull) as [[l h] Hupd].
    rewrite Hupd. apply functional_update_extends in Hupd.
    destruct Hupd as (Hsub & _ & prev & Hprev & Hnew).
    destruct Hbear as [pbear Hpbear]. destruct Hbase as [pbase Hpbase].
    destruct sc; simpl.
    + now rewrite (lookup_weaken _ _ _ _ Hpbear Hsub), Hpbear.
    + now rewrite (lookup_weaken _ _ _ _ Hpbase Hsub), Hpbase.
    + now rewrite Hnew, Hprev.
Qed.

Lemma run_currentParams (sc : Scenario) (evs : list Event) (st : AppState) :
  slots_live st ->
  currentParams sc (run st evs)
  = (fun p => apply_edits p (edits_of sc evs)) <$> currentParams sc st.
Proof.
  revert st. induction evs as [|ev evs IH]; intros st Hlive.
  - change (run st []) with st. destruct (currentParams sc st); reflexivity.
  - change (run st (ev :: evs)) with (run (dispatch st ev) evs).
    rewrite IH by now apply dispatch_slots_live.
    rewrite dispatch_currentParams by exact Hlive.
    rewrite (edits_of_cons sc ev evs).
    destruct (currentParams sc st) as [p|]; [|reflexivity].
    transitivity (Some (apply_edits (apply_edits p (edits_of sc [ev])) (edits_of sc evs)));
      [reflexivity|].
    rewrite <- apply_edits_app. reflexivity.
Qed.

(** Whatever the user has done, each scenario tab shows its preset with
    the edits addressed to that scenario applied in order -- edits of the
    other scenarios and tab clicks leave it alone -- and the comparison
    view shows [calculate] of exactly those parameters. *)
Theorem scenario_is_preset_plus_its_edits (sc : Scenario) (evs : list Event) :
  currentParams sc (run BitFrostEngine_init evs)
  = Some (apply_edits (preset_literal sc) (edits_of sc evs)) /\
  scenarioResult sc (run BitFrostEngine_init evs)
  = Some (calculate (apply_edits (preset_literal sc) (edits_of sc evs))).
Proof.
  assert (Hcur : currentParams sc (run BitFrostEngine_init evs)
                 = Some (apply_edits (preset_literal sc) (edits_of sc evs))).
  { rewrite run_currentParams by apply init_slots_live.
    destruct sc; reflexivity. }
  split; [exact Hcur|]. unfold scenarioResult. now rewrite Hcur.
Qed.

(** An edit always installs a newly allocated object in the slot of its
    scenario -- the reference changes even if the value typed is the one
    the field already holds -- and it touches nothing else: the other two
    slots, the active tab and every existing object stay as they were. *)
Theorem edit_installs_a_fresh_object (sc : Scenario) (key : Key) (value : float)
    (st : AppState) :
  slots_live st ->
  slot sc (dispatch st (edit sc key value)) <> slot sc st /\
  objects st !! slot sc (dispatch st (edit sc key value)) = None /\
  currentParams sc (dispatch st (edit sc key value))
  = (fun prev => spread_with prev key value) <$> currentParams sc st /\
  (forall sc', sc' <> sc ->
     slot sc' (dispatch st (edit sc key value)) = slot sc' st) /\
  activeTab (dispatch st (edit sc key value)) = activeTab st /\
  objects st ⊆ objects (dispatch st (edit sc key value)).
Proof.
  intros Hlive.
  assert (Hcur : currentParams sc (dispatch st (edit sc key value))
                 = (fun prev => spread_with prev key value) <$> currentParams sc st).
  { rewrite dispatch_currentParams by exact Hlive. now destruct sc. }
  destruct Hlive as (Hbear & Hbase & Hbull).
  destruct sc; simpl edit; simpl dispatch.
  - unfold handleBearChange in *.
    destruct (functional_update_live _ _ key value Hbear) as [[l h] Hupd].
    simpl edit in Hcur; simpl dispatch in Hcur. unfold handleBearChange in Hcur.
    rewrite Hupd in *. apply functional_update_extends in Hupd.
    destruct Hupd as (Hsub & Hfresh & prev & Hprev & Hnew). simpl.
    split; [intros Heq; simpl in Heq; congruence|].
    split; [exact Hfresh|]. split; [exact Hcur|].
    split; [intros sc' Hne; destruct sc'; simpl; congruence|].
    split; [reflexivity | exact Hsub].
  - unfold handleBaseChange in *.
    destruct (functional_update_live _ _ key value Hbase) as [[l h] Hupd].
    simpl edit in Hcur; simpl dispatch in Hcur. unfold handleBaseChange in Hcur.
    rewrite Hupd in *. apply functional_update_extends in Hupd.
    destruct Hupd as (Hsub & Hfresh & prev & Hprev & Hnew). simpl.
    split; [intros Heq; simpl in Heq; congruence|].
    split; [exact Hfresh|]. split; [exact Hcur|].
    split; [intros sc' Hne; destruct sc'; simpl; congruence|].
    split; [reflexivity | exact Hsub].
  - unfold handleBullChange in *.
    destruct (functional_update_live _ _ key value Hbull) as [[l h] Hupd].
    simpl edit in Hcur; simpl dispatch in Hcur. unfold handleBullChange in Hcur.
    rewrite Hupd in *. apply functional_update_extends in Hupd.
    destruct Hupd as (Hsub & Hfresh & prev & Hprev & Hnew). simpl.
    split; [intros Heq; simpl in Heq; congruence|].
    split; [exact Hfresh|]. split; [exact Hcur|].
    split; [intros sc' Hne; destruct sc'; simpl; congruence|].
    split; [reflexivity | exact Hsub].
Qed.

Lemma edit_installs_a_fresh_object_witness :
  (slots_live BitFrostEngine_init) /\
  (slot Base (dispatch BitFrostEngine_init (edit Base K_equity 1%float)) <> slot Base BitFrostEngine_init /\
  objects BitFrostEngine_init !! slot Base (dispatch BitFrostEngine_init (edit Base K_equity 1%float)) = None /\
  currentParams Base (dispatch BitFrostEngine_init (edit Base K_equity 1%float))
  = (fun prev => spread_with prev K_equity 1%float) <$> currentParams Base BitFrostEngine_init /\
  (forall sc', sc' <> Base ->
     slot sc' (dispatch BitFrostEngine_init (edit Base K_equity 1%float)) = slot sc' BitFrostEngine_init) /\
  activeTab (dispatch BitFrostEngine_init (edit Base K_equity 1%float)) = activeTab BitFrostEngine_init /\
  objects BitFrostEngine_init ⊆ objects (dispatch BitFrostEngine_init (edit Base K_equity 1%float))).
Proof.
  split; [exact init_slots_live|].
  apply (edit_installs_a_fresh_object Base K_equity 1%float BitFrostEngine_init); exact init_slots_live.
Defined.

(** ** Signs of the revenue streams *)

Lemma not_negative_Prim2SF (x : float) :
  not_negative x <-> SFnot_negative (Prim2SF x).
Proof. unfold not_negative, SFnot_negative. now rewrite ltb_spec. Qed.

(** Rounding hands back the sign it was given, or NaN. *)
Lemma binary_round_aux_not_negative (M e : Z) (l : location) :
  SFnot_negative (binary_round_aux prec emax false M e l).
Proof.
  unfold SFnot_negative, SFltb, binary_round_aux.
  destruct (shr_fexp prec emax M e l) as [r1 e1].
  destruct (shr_fexp prec emax _ e1 loc_Exact) as [r2 e2].
  destruct (shr_m r2); [reflexivity| |reflexivity].
  destruct (e2 <=? emax - prec)%Z; reflexivity.
Qed.

Lemma SFnot_negative_finite_inv (s : bool) (m : positive) (e : Z) :
  SFnot_negative (S754_finite s m e) -> s = false.
Proof. destruct s; [discriminate | reflexivity]. Qed.

Lemma SFnot_negative_infinity_inv (s : bool) :
  SFnot_negative (S754_infinity s) -> s = false.
Proof. destruct s; [discriminate | reflexivity]. Qed.

Lemma SFmul_not_negative (X Y : spec_float) :
  SFnot_negative X -> SFnot_negative Y -> SFnot_negative (SF64mul X Y).
Proof.
  intros HX HY.
  destruct X as [sx|sx| |sx mx ex]; destruct Y as [sy|sy| |sy my ey];
    try reflexivity;
    try (apply SFnot_negative_finite_inv in HX; subst sx);
    try (apply SFnot_negative_infinity_inv in HX; subst sx);
    try (apply SFnot_negative_finite_inv in HY; subst sy);
    try (apply SFnot_negative_infinity_inv in HY; subst sy);
    try reflexivity.
  apply binary_round_aux_not_negative.
Qed.

Lemma SFadd_not_negative (X Y : spec_float) :
  SFnot_negative X -> SFnot_negative Y -> SFnot_negative (SF64add X Y).
Proof.
  intros HX HY.
  destruct X as [sx|sx| |sx mx ex]; destruct Y as [sy|sy| |sy my ey];
    try reflexivity;
    try (apply SFnot_negative_finite_inv in HX; subst sx);
    try (apply SFnot_negative_infinity_inv in HX; subst sx);
    try (apply SFnot_negative_finite_inv in HY; subst sy);
    try (apply SFnot_negative_infinity_inv in HY; subst sy);
    try reflexivity;
    try (now destruct sx, sy); try (now destruct sx); try (now destruct sy).
  unfold SF64add, SFadd. cbv [cond_Zopp].
  change (Z.add (Zpos ?a) (Zpos ?b)) with (Zpos (a + b)).
  cbv [binary_normalize binary_round].
  destruct (shl_align _ _ _) as [mz ez].
  apply binary_round_aux_not_negative.
Qed.

Lemma SFdiv_not_negative (X Y : spec_float) :
  SFnot_negative X -> SFltb (S754_zero false) Y = true ->
  SFnot_negative (SF64div X Y).
Proof.
  intros HX HY.
  destruct Y as [sy|sy| |sy my ey]; try discriminate HY;
    destruct sy; try discriminate HY;
    destruct X as [sx|sx| |sx mx ex];
    try reflexivity;
    try (apply SFnot_negative_finite_inv in HX; subst sx);
    try (apply SFnot_negative_infinity_inv in HX; subst sx);
    try reflexivity;
    try (now destruct sx).
  unfold SF64div, SFdiv.
  destruct (SFdiv_core_binary prec emax (Zpos mx) ex (Zpos my) ey) as [[mz ez] lz].
  apply binary_round_aux_not_negative.
Qed.

Lemma mul_not_negative (x y : float) :
  not_negative x -> not_negative y -> not_negative (x * y)%float.
Proof.
  rewrite !not_negative_Prim2SF, mul_spec. apply SFmul_not_negative.
Qed.

Lemma add_not_negative (x y : float) :
  not_negative x -> not_negative y -> not_negative (x + y)%float.
Proof.
  rewrite !not_negative_Prim2SF, add_spec. apply SFadd_not_negative.
Qed.

Lemma div_not_negative (x y : float) :
  not_negative x -> (0 <? y)%float = true -> not_negative (x / y)%float.
Proof.
  rewrite !not_negative_Prim2SF, div_spec, ltb_spec. apply SFdiv_not_negative.
Qed.

(** With inputs that are not negative, the clearing, liquidation and
    hedging streams and their daily figures are never negative (they can
    be NaN, when an overflow meets a zero). *)
Theorem volume_streams_are_not_negative (params : ScenarioParams) :
  (forall key, feeds key <> Funding -> not_negative (get_field key params)) ->
  not_negative (clearing (calculate params)) /\
  not_negative (liquidations (calculate params)) /\
  not_negative (hedging (calculate params)) /\
  not_negative (clearingDaily (calculate params)) /\
  not_negative (hedgeDaily (calculate params)).
Proof.
  intros Hin.
  pose proof (Hin K_dailyVolume ltac:(discriminate)) as HV.
  pose proof (Hin K_internalMatchRatio ltac:(discriminate)) as Halpha.
  pose proof (Hin K_clearingFee ltac:(discriminate)) as Hfc.
  pose proof (Hin K_nettingFee ltac:(discriminate)) as Hfn.
  pose proof (Hin K_monthlyLiquidations ltac:(discriminate)) as HLm.
  pose proof (Hin K_liquidationFee ltac:(discriminate)) as Hphi.
  pose proof (Hin K_dailyHedge ltac:(discriminate)) as HHd.
  pose proof (Hin K_hedgeEfficiency ltac:(discriminate)) as Heta.
  simpl in HV, Halpha, Hfc, Hfn, HLm, Hphi, HHd, Heta.
  assert (Hclear : not_negative (clearing (calculate params))).
  { repeat apply mul_not_negative; try assumption; try reflexivity.
    apply add_not_negative; apply div_not_negative; try assumption; reflexivity. }
  assert (Hliq : not_negative (liquidations (calculate params))).
  { repeat apply mul_not_negative; try assumption; try reflexivity.
    apply div_not_negative; [assumption | reflexivity]. }
  assert (Hhedge : not_negative (hedging (calculate params))).
  { repeat apply mul_not_negative; try assumption; try reflexivity.
    apply div_not_negative; [assumption | reflexivity]. }
  repeat split; try assumption.
  - apply div_not_negative; [exact Hclear | reflexivity].
  - apply div_not_negative; [exact Hhedge | reflexivity].
Qed.

Lemma volume_streams_are_not_negative_witness :
  (forall key, feeds key <> Funding -> not_negative (get_field key base_literal)) /\
  (not_negative (clearing (calculate base_literal)) /\
   not_negative (liquidations (calculate base_literal)) /\
   not_negative (hedging (calculate base_literal)) /\
   not_negative (clearingDaily (calculate base_literal)) /\
   not_negative (hedgeDaily (calculate base_literal))).
Proof.
  assert (Hin : forall key, feeds key <> Funding ->
                  not_negative (get_field key base_literal)).
  { intros key Hkey. destruct key; try reflexivity; contradiction Hkey; reflexivity. }
  split; [exact Hin|].
  exact (volume_streams_are_not_negative base_literal Hin).
Defined.

(** When no stream is negative, neither are the total and its averages;
    and with a leverage, an equity and a funding spread that are not
    negative, neither are the deployed notional, the funding and the
    funding ROE. *)
Theorem result_is_not_negative (params : ScenarioParams) :
  not_negative (clearing (calculate params)) ->
  not_negative (liquidations (calculate params)) ->
  not_negative (hedging (calculate params)) ->
  not_negative (leverage params) -> not_negative (equity params) ->
  not_negative (fundingSpread (calculate params)) ->
  not_negative (deployedNotional (calculate params)) /\
  not_negative (funding (calculate params)) /\
  not_negative (fundingROE (calculate params)) /\
  not_negative (total (calculate params)) /\
  not_negative (monthlyAvg (calculate params)) /\
  not_negative (dailyAvg (calculate params)).
Proof.
  intros Hclear Hliq Hhedge HL HE Hs.
  assert (HN : not_negative (deployedNotional (calculate params)))
    by (apply mul_not_negative; assumption).
  assert (Hf : not_negative (funding (calculate params)))
    by (apply mul_not_negative; assumption).
  assert (Ht : not_negative (total (calculate params)))
    by (repeat apply add_not_negative; assumption).
  split; [exact HN|]. split; [exact Hf|].
  split; [repeat apply mul_not_negative; try assumption; reflexivity|].
  split; [exact Ht|].
  split; apply div_not_negative; try exact Ht; reflexivity.
Qed.

Lemma result_is_not_negative_witness :
  not_negative (clearing (calculate base_literal)) /\
  not_negative (liquidations (calculate base_literal)) /\
  not_negative (hedging (calculate base_literal)) /\
  not_negative (leverage base_literal) /\
  not_negative (equity base_literal) /\
  not_negative (fundingSpread (calculate base_literal)) /\
  (not_negative (deployedNotional (calculate base_literal)) /\
   not_negative (funding (calculate base_literal)) /\
   not_negative (fundingROE (calculate base_literal)) /\
   not_negative (total (calculate base_literal)) /\
   not_negative (monthlyAvg (calculate base_literal)) /\
   not_negative (dailyAvg (calculate base_literal))).
Proof.
  split; [reflexivity|]. split; [reflexivity|]. split; [reflexivity|].
  split; [reflexivity|]. split; [reflexivity|]. split; [reflexivity|].
  apply (result_is_not_negative base_literal); reflexivity.
Defined.

(** ** Scaling the volume inputs *)

Lemma SFmul_comm (X Y : spec_float) : SF64mul X Y = SF64mul Y X.
Proof.
  destruct X as [sx|sx| |sx mx ex]; destruct Y as [sy|sy| |sy my ey];
    try reflexivity; unfold SF64mul, SFmul;
    try (now rewrite (xorb_comm sx sy)).
  now rewrite (xorb_comm sx sy), (Pos.mul_comm mx my), (Z.add_comm ex ey).
Qed.

(** Binary64 multiplication is commutative. *)
Lemma mul_comm (x y : float) : (x * y)%float = (y * x)%float.
Proof. apply Prim2SF_inj. rewrite !mul_spec. apply SFmul_comm. Qed.

Lemma product_scales_comm (x y : float) : product_scales x y = product_scales y x.
Proof.
  unfold product_scales. rewrite (mul_comm x y).
  destruct (0x1p-1021 <=? abs (y * x))%float; simpl; [reflexivity|].
  apply orb_comm.
Qed.

(** The two applied to the left factor. *)
Lemma mul_two_comm_l (x y : float) :
  doubles_finitely x = true -> product_scales x y = true ->
  (2 * x * y)%float = (2 * (x * y))%float.
Proof.
  intros Hx Hxy. rewrite (mul_comm (2 * x) y), (mul_comm x y).
  apply mul_two_comm; [exact Hx|]. now rewrite product_scales_comm.
Qed.

(** A product of three factors scales with its middle one. *)
Lemma scale_three (c v r : float) :
  doubles_finitely v = true -> product_scales c v = true ->
  doubles_finitely (c * v) = true -> product_scales (c * v) r = true ->
  (c * (2 * v) * r)%float = (2 * (c * v * r))%float.
Proof.
  intros Hv Hcv Hcv' Hcvr.
  rewrite (mul_two_comm c v Hv Hcv). now apply mul_two_comm_l.
Qed.

(** Doubling the daily volume doubles the clearing stream and leaves the
    three other streams alone, as long as no intermediate product
    overflows on doubling or was rounded in the subnormal range. *)
Theorem doubling_dailyVolume_doubles_clearing (params : ScenarioParams) :
  doubles_finitely (dailyVolume params) = true ->
  product_scales DAYS_PER_YEAR (dailyVolume params) = true ->
  doubles_finitely (DAYS_PER_YEAR * dailyVolume params) = true ->
  product_scales (DAYS_PER_YEAR * dailyVolume params)
                 (internalMatchRatio params) = true ->
  doubles_finitely (DAYS_PER_YEAR * dailyVolume params
                    * internalMatchRatio params) = true ->
  product_scales (DAYS_PER_YEAR * dailyVolume params * internalMatchRatio params)
                 (clearingFee params / BPS_PER_UNIT
                  + nettingFee params / BPS_PER_UNIT) = true ->
  clearing (calculate (spread_with params K_dailyVolume (2 * dailyVolume params)%float))
  = (2 * clearing (calculate params))%float /\
  funding (calculate (spread_with params K_dailyVolume (2 * dailyVolume params)%float))
  = funding (calculate params) /\
  liquidations (calculate (spread_with params K_dailyVolume (2 * dailyVolume params)%float))
  = liquidations (calculate params) /\
  hedging (calculate (spread_with params K_dailyVolume (2 * dailyVolume params)%float))
  = hedging (calculate params).
Proof.
  intros H1 H2 H3 H4 H5 H6.
  split; [|repeat split; reflexivity].
  change (clearing (calculate (spread_with params K_dailyVolume (2 * dailyVolume params)%float)))
    with (DAYS_PER_YEAR * (2 * dailyVolume params) * internalMatchRatio params
          * (clearingFee params / BPS_PER_UNIT + nettingFee params / BPS_PER_UNIT))%float.
  rewrite (scale_three _ _ _ H1 H2 H3 H4).
  exact (mul_two_comm_l _ _ H5 H6).
Qed.

Lemma doubling_dailyVolume_doubles_clearing_witness :
  (doubles_finitely (dailyVolume base_literal) = true) /\
  (product_scales DAYS_PER_YEAR (dailyVolume base_literal) = true) /\
  (doubles_finitely (DAYS_PER_YEAR * dailyVolume base_literal) = true) /\
  (product_scales (DAYS_PER_YEAR * dailyVolume base_literal)
                 (internalMatchRatio base_literal) = true) /\
  (doubles_finitely (DAYS_PER_YEAR * dailyVolume base_literal
                    * internalMatchRatio base_literal) = true) /\
  (product_scales (DAYS_PER_YEAR * dailyVolume base_literal * internalMatchRatio base_literal)
                 (clearingFee base_literal / BPS_PER_UNIT
                  + nettingFee base_literal / BPS_PER_UNIT) = true) /\
  (clearing (calculate (spread_with base_literal K_dailyVolume (2 * dailyVolume base_literal)%float))
  = (2 * clearing (calculate base_literal))%float /\
  funding (calculate (spread_with base_literal K_dailyVolume (2 * dailyVolume base_literal)%float))
  = funding (calculate base_literal) /\
  liquidations (calculate (spread_with base_literal K_dailyVolume (2 * dailyVolume base_literal)%float))
  = liquidations (calculate base_literal) /\
  hedging (calculate (spread_with base_literal K_dailyVolume (2 * dailyVolume base_literal)%float))
  = hedging (calculate base_literal)).
Proof.
  split; [reflexivity|].
  split; [reflexivity|].
  split; [reflexivity|].
  split; [reflexivity|].
  split; [reflexivity|].
  split; [reflexivity|].
  apply (doubling_dailyVolume_doubles_clearing base_literal); reflexivity.
Defined.

(** Doubling the monthly liquidations doubles the liquidation stream. *)
Theorem doubling_monthlyLiquidations_doubles_liquidations (params : ScenarioParams) :
  doubles_finitely (monthlyLiquidations params) = true ->
  product_scales MONTHS_PER_YEAR (monthlyLiquidations params) = true ->
  doubles_finitely (MONTHS_PER_YEAR * monthlyLiquidations params) = true ->
  product_scales (MONTHS_PER_YEAR * monthlyLiquidations params)
                 (liquidationFee params / 100) = true ->
  liquidations (calculate
    (spread_with params K_monthlyLiquidations (2 * monthlyLiquidations params)%float))
  = (2 * liquidations (calculate params))%float.
Proof.
  intros H1 H2 H3 H4. exact (scale_three _ _ _ H1 H2 H3 H4).
Qed.

Lemma doubling_monthlyLiquidations_doubles_liquidations_witness :
  (doubles_finitely (monthlyLiquidations base_literal) = true) /\
  (product_scales MONTHS_PER_YEAR (monthlyLiquidations base_literal) = true) /\
  (doubles_finitely (MONTHS_PER_YEAR * monthlyLiquidations base_literal) = true) /\
  (product_scales (MONTHS_PER_YEAR * monthlyLiquidations base_literal)
                 (liquidationFee base_literal / 100) = true) /\
  (liquidations (calculate
    (spread_with base_literal K_monthlyLiquidations (2 * monthlyLiquidations base_literal)%float))
  = (2 * liquidations (calculate base_literal))%float).
Proof.
  split; [reflexivity|].
  split; [reflexivity|].
  split; [reflexivity|].
  split; [reflexivity|].
  apply (doubling_monthlyLiquidations_doubles_liquidations base_literal); reflexivity.
Defined.

(** Doubling the daily hedge notional doubles the hedging stream. *)
Theorem doubling_dailyHedge_doubles_hedging (params : ScenarioParams) :
  doubles_finitely (dailyHedge params) = true ->
  product_scales DAYS_PER_YEAR (dailyHedge params) = true ->
  doubles_finitely (DAYS_PER_YEAR * dailyHedge params) = true ->
  product_scales (DAYS_PER_YEAR * dailyHedge params)
                 (hedgeEfficiency params / BPS_PER_UNIT) = true ->
  hedging (calculate (spread_with params K_dailyHedge (2 * dailyHedge params)%float))
  = (2 * hedging (calculate params))%float.
Proof.
  intros H1 H2 H3 H4. exact (scale_three _ _ _ H1 H2 H3 H4).
Qed.

Lemma doubling_dailyHedge_doubles_hedging_witness :
  (doubles_finitely (dailyHedge base_literal) = true) /\
  (product_scales DAYS_PER_YEAR (dailyHedge base_literal) = true) /\
  (doubles_finitely (DAYS_PER_YEAR * dailyHedge base_literal) = true) /\
  (product_scales (DAYS_PER_YEAR * dailyHedge base_literal)
                 (hedgeEfficiency base_literal / BPS_PER_UNIT) = true) /\
  (hedging (calculate (spread_with base_literal K_dailyHedge (2 * dailyHedge base_literal)%float))
  = (2 * hedging (calculate base_literal))%float).
Proof.
  split; [reflexivity|].
  split; [reflexivity|].
  split; [reflexivity|].
  split; [reflexivity|].
  apply (doubling_dailyHedge_doubles_hedging base_literal); reflexivity.
Defined.

(** ** Which results an edit can change *)

(** Each input feeds one stream: an edit of a field leaves the three
    other streams as they were, and an edit outside the funding inputs
    leaves the spread, the deployed notional and the funding ROE. *)
Theorem edit_changes_only_its_stream (params : ScenarioParams) (key : Key)
    (value : float) (s : Stream) :
  s <> feeds key ->
  stream_value s (calculate (spread_with params key value))
  = stream_value s (calculate params) /\
  (feeds key <> Funding ->
   fundingSpread (calculate (spread_with params key value))
   = fundingSpread (calculate params) /\
   deployedNotional (calculate (spread_with params key value))
   = deployedNotional (calculate params) /\
   fundingROE (calculate (spread_with params key value))
   = fundingROE (calculate params)).
Proof.
  intros Hs. split.
  - destruct key, s; try reflexivity; contradiction Hs; reflexivity.
  - intros Hk. destruct key; try (repeat split; reflexivity);
      contradiction Hk; reflexivity.
Qed.

Lemma edit_changes_only_its_stream_witness :
  (Clearing <> feeds K_equity) /\
  (stream_value Clearing (calculate (spread_with base_literal K_equity 1%float))
  = stream_value Clearing (calculate base_literal) /\
  (feeds K_equity <> Funding ->
   fundingSpread (calculate (spread_with base_literal K_equity 1%float))
   = fundingSpread (calculate base_literal) /\
   deployedNotional (calculate (spread_with base_literal K_equity 1%float))
   = deployedNotional (calculate base_literal) /\
   fundingROE (calculate (spread_with base_literal K_equity 1%float))
   = fundingROE (calculate base_literal))).
Proof.
  split; [discriminate|].
  apply (edit_changes_only_its_stream base_literal K_equity 1%float Clearing); discriminate.
Defined.

(** ** NaN and zero totals *)

Lemma Prim2SF_nan : Prim2SF nan = S754_nan.
Proof. reflexivity. Qed.

Lemma mul_nan_l (x : float) : (nan * x)%float = nan.
Proof. apply Prim2SF_inj. rewrite mul_spec, Prim2SF_nan. reflexivity. Qed.

Lemma mul_nan_r (x : float) : (x * nan)%float = nan.
Proof.
  apply Prim2SF_inj. rewrite mul_spec, Prim2SF_nan. now destruct (Prim2SF x).
Qed.

Lemma add_nan_l (x : float) : (nan + x)%float = nan.
Proof. apply Prim2SF_inj. rewrite add_spec, Prim2SF_nan. reflexivity. Qed.

Lemma add_nan_r (x : float) : (x + nan)%float = nan.
Proof.
  apply Prim2SF_inj. rewrite add_spec, Prim2SF_nan. now destruct (Prim2SF x).
Qed.

Lemma sub_nan_l (x : float) : (nan - x)%float = nan.
Proof. apply Prim2SF_inj. rewrite sub_spec, Prim2SF_nan. reflexivity. Qed.

Lemma sub_nan_r (x : float) : (x - nan)%float = nan.
Proof.
  apply Prim2SF_inj. rewrite sub_spec, Prim2SF_nan. now destruct (Prim2SF x).
Qed.

Lemma div_nan_l (x : float) : (nan / x)%float = nan.
Proof. apply Prim2SF_inj. rewrite div_spec, Prim2SF_nan. reflexivity. Qed.

Create Rewrite HintDb nan_propagates.
#[local] Hint Rewrite mul_nan_l mul_nan_r add_nan_l add_nan_r sub_nan_l sub_nan_r
  div_nan_l : nan_propagates.

(** No input is validated: a NaN typed into any field (what [parseFloat]
    gives for a blank input) makes the stream it feeds NaN, and with it
    the total and both averages. *)
Theorem nan_input_poisons_total (params : ScenarioParams) (key : Key) :
  stream_value (feeds key) (calculate (spread_with params key nan)) = nan /\
  total (calculate (spread_with params key nan)) = nan /\
  monthlyAvg (calculate (spread_with params key nan)) = nan /\
  dailyAvg (calculate (spread_with params key nan)) = nan.
Proof.
  destruct key; cbv [calculate spread_with feeds stream_value
    dailyVolume internalMatchRatio clearingFee nettingFee hlFundingRate
    archBorrowRate frictionCost equity leverage monthlyLiquidations
    liquidationFee dailyHedge hedgeEfficiency
    total clearing funding liquidations hedging monthlyAvg dailyAvg];
    autorewrite with nan_propagates; repeat split; reflexivity.
Qed.

Lemma Prim2SF_100 : Prim2SF 100%float = S754_finite false 7036874417766400 (-46).
Proof. reflexivity. Qed.

Lemma Prim2SF_infinity : Prim2SF infinity = S754_infinity false.
Proof. reflexivity. Qed.

Lemma not_finite_Prim2SF (y : float) :
  Prim2SF y = S754_nan \/ (exists s, Prim2SF y = S754_infinity s) ->
  is_finite y = false.
Proof.
  intros Hy. unfold is_finite. apply negb_false_iff. apply orb_true_iff.
  destruct Hy as [Hnan|[s Hinf]].
  - left. now apply is_nan_Prim2SF.
  - right. unfold is_infinity.
    rewrite FloatAxioms.eqb_spec, abs_spec, Hinf, Prim2SF_infinity. reflexivity.
Qed.

(** The share column divides by the total without a guard: when the
    total is zero, the share of every stream is NaN or infinite. *)
Theorem shares_of_a_zero_total_are_not_finite (result : RevenueResult) (s : Stream) :
  (total result =? 0)%float = true ->
  is_finite (stream_value s result / total result * 100)%float = false.
Proof.
  intros Hzero. rewrite FloatAxioms.eqb_spec in Hzero.
  apply SFeqb_zero_inv in Hzero as [st Hzero].
  apply not_finite_Prim2SF.
  rewrite mul_spec, div_spec, Hzero, Prim2SF_100.
  destruct (Prim2SF (stream_value s result)) as [sx|sx| |sx mx ex].
  - left. reflexivity.
  - right. eexists. reflexivity.
  - left. reflexivity.
  - right. eexists. reflexivity.
Qed.

Lemma shares_of_a_zero_total_are_not_finite_witness :
  let nothing :=
    {| dailyVolume := 0%float; internalMatchRatio := 0%float;
       clearingFee := 0%float; nettingFee := 0%float;
       hlFundingRate := 0%float; archBorrowRate := 0%float;
       frictionCost := 0%float; equity := 0%float;
       leverage := 0%float; monthlyLiquidations := 0%float;
       liquidationFee := 0%float; dailyHedge := 0%float;
       hedgeEfficiency := 0%float |} in
  (total (calculate nothing) =? 0)%float = true /\
  is_finite (stream_value Clearing (calculate nothing)
             / total (calculate nothing) * 100)%float = false.
Proof.
  cbv zeta. split; [reflexivity|].
  apply (shares_of_a_zero_total_are_not_finite _ Clearing). reflexivity.
Defined.

(** Doubling the leverage doubles the deployed notional, the funding and
    the funding ROE (equity, by contrast, does not enter the ROE), under
    the same side conditions on the products involved. *)
Theorem doubling_leverage_doubles_funding_and_ROE (params : ScenarioParams) :
  doubles_finitely (leverage params) = true ->
  product_scales (leverage params) (equity params) = true ->
  doubles_finitely (deployedNotional (calculate params)) = true ->
  product_scales (fundingSpread (calculate params))
                 (deployedNotional (calculate params)) = true ->
  product_scales (fundingSpread (calculate params)) (leverage params) = true ->
  doubles_finitely (fundingSpread (calculate params) * leverage params) = true ->
  product_scales (fundingSpread (calculate params) * leverage params) 100 = true ->
  deployedNotional (calculate (spread_with params K_leverage (2 * leverage params)%float))
  = (2 * deployedNotional (calculate params))%float /\
  funding (calculate (spread_with params K_leverage (2 * leverage params)%float))
  = (2 * funding (calculate params))%float /\
  fundingROE (calculate (spread_with params K_leverage (2 * leverage params)%float))
  = (2 * fundingROE (calculate params))%float /\
  fundingROE (calculate (spread_with params K_equity (2 * equity params)%float))
  = fundingROE (calculate params).
Proof.
  intros HL HLE HN HsN HsL HsL' HsL100.
  assert (Hnotional :
    deployedNotional (calculate (spread_with params K_leverage (2 * leverage params)%float))
    = (2 * deployedNotional (calculate params))%float)
    by exact (mul_two_comm_l (leverage params) (equity params) HL HLE).
  split; [exact Hnotional|]. split; [|split; [|reflexivity]].
  - change (funding (calculate (spread_with params K_leverage (2 * leverage params)%float)))
      with (fundingSpread (calculate params)
            * deployedNotional (calculate (spread_with params K_leverage (2 * leverage params)%float)))%float.
    rewrite Hnotional. exact (mul_two_comm _ _ HN HsN).
  - exact (scale_three _ _ _ HL HsL HsL' HsL100).
Qed.

Lemma doubling_leverage_doubles_funding_and_ROE_witness :
  (doubles_finitely (leverage base_literal) = true) /\
  (product_scales (leverage base_literal) (equity base_literal) = true) /\
  (doubles_finitely (deployedNotional (calculate base_literal)) = true) /\
  (product_scales (fundingSpread (calculate base_literal))
                 (deployedNotional (calculate base_literal)) = true) /\
  (product_scales (fundingSpread (calculate base_literal)) (leverage base_literal) = true) /\
  (doubles_finitely (fundingSpread (calculate base_literal) * leverage base_literal) = true) /\
  (product_scales (fundingSpread (calculate base_literal) * leverage base_literal) 100 = true) /\
  (deployedNotional (calculate (spread_with base_literal K_leverage (2 * leverage base_literal)%float))
  = (2 * deployedNotional (calculate base_literal))%float /\
  funding (calculate (spread_with base_literal K_leverage (2 * leverage base_literal)%float))
  = (2 * funding (calculate base_literal))%float /\
  fundingROE (calculate (spread_with base_literal K_leverage (2 * leverage base_literal)%float))
  = (2 * fundingROE (calculate base_literal))%float /\
  fundingROE (calculate (spread_with base_literal K_equity (2 * equity base_literal)%float))
  = fundingROE (calculate base_literal)).
Proof.
  split; [reflexivity|].
  split; [reflexivity|].
  split; [reflexivity|].
  split; [reflexivity|].
  split; [reflexivity|].
  split; [reflexivity|].
  split; [reflexivity|].
  apply (doubling_leverage_doubles_funding_and_ROE base_literal); reflexivity.
Defined.
